(** * 2fa_monitor.py: the code-extraction and deduplication pipeline

    A shallow embedding of [TwoFactorMonitor] (src/2fa_monitor.py): the
    regular-expression rules and [extract_code], the text recovery from an
    attributedBody payload, the bounded list of processed codes, and the
    watermark loop of [check_for_new_messages].

    A Python [str] is a sequence of code points, modelled as [list N].
    Python integers are unbounded, modelled as [Z].  The interpreter's
    character tables and codec, and the outcome of the [pbcopy] subprocess,
    are not part of the repository: they are taken as parameters. *)

From Stdlib Require Import String Ascii.
From Stdlib.Strings Require Import Byte.
From Stdlib Require Import List Bool Arith ZArith NArith Lia Sorted Permutation.
Import ListNotations.

Set Implicit Arguments.

(** ** Text *)

(** A Python string: its code points, in order. *)
Definition str : Type := list N.

(** The code points of an ASCII literal. *)
Definition lit (s : string) : str :=
  map N_of_ascii (list_ascii_of_string s).

Fixpoint str_eqb (a b : str) : bool :=
  match a, b with
  | [], [] => true
  | x :: a', y :: b' => N.eqb x y && str_eqb a' b'
  | _, _ => false
  end.

(** [code in codes] on a list of strings. *)
Definition mem_str (code : str) (codes : list str) : bool :=
  existsb (str_eqb code) codes.

(** ** What the program takes from the interpreter and from the system *)

(** The Unicode tables behind [str.isprintable], [str.isspace] (also [\s]
    and [str.strip]), [\d] and [\w] of the [re] module, and the UTF-8 codec
    with [errors='ignore'] ([None]: the call raised). *)
Class Interp : Type := {
  isprintable : N -> bool;
  isspace : N -> bool;
  isdecimal : N -> bool;
  isalnum : N -> bool;
  decode_utf8_ignore : list byte -> option str
}.

Definition ascii_isprintable (c : N) : bool := (32 <=? c)%N && (c <=? 126)%N.

Definition ascii_isspace (c : N) : bool :=
  (9 <=? c)%N && (c <=? 13)%N || (28 <=? c)%N && (c <=? 32)%N.

Definition ascii_isdecimal (c : N) : bool := (48 <=? c)%N && (c <=? 57)%N.

Definition ascii_isalnum (c : N) : bool :=
  ascii_isdecimal c
  || (65 <=? c)%N && (c <=? 90)%N
  || (97 <=? c)%N && (c <=? 122)%N.

(** On code points below 128 every interpreter classifies as ASCII does. *)
Class AsciiTables (py : Interp) : Prop := {
  isprintable_ascii : forall c, (c < 128)%N -> isprintable c = ascii_isprintable c;
  isspace_ascii : forall c, (c < 128)%N -> isspace c = ascii_isspace c;
  isdecimal_ascii : forall c, (c < 128)%N -> isdecimal c = ascii_isdecimal c;
  isalnum_ascii : forall c, (c < 128)%N -> isalnum c = ascii_isalnum c
}.

(** An interpreter that knows ASCII only: every code point from 128 on is
    unclassified, and the codec keeps the bytes below 128.  It agrees with
    Python on ASCII text and ASCII payloads, and is what the concrete
    examples below are evaluated with. *)
Definition ascii_interp : Interp := {|
  isprintable c := (c <? 128)%N && ascii_isprintable c;
  isspace c := (c <? 128)%N && ascii_isspace c;
  isdecimal c := (c <? 128)%N && ascii_isdecimal c;
  isalnum c := (c <? 128)%N && ascii_isalnum c;
  decode_utf8_ignore b :=
    Some (filter (fun c => (c <? 128)%N) (map Byte.to_N b))
|}.

(** Text made of code points below 128 only. *)
Definition ascii_text (s : str) : Prop := Forall (fun c => (c < 128)%N) s.

Definition ascii_opt (c : option N) : Prop :=
  match c with
  | Some x => (x < 128)%N
  | None => True
  end.

(** ** Regular expressions (the fragment [self.patterns] uses) *)

Inductive charset : Type :=
| Digit        (* \d *)
| UpperDigit.  (* [A-Z0-9] *)

Inductive re_item : Type :=
| WordBoundary                         (* \b *)
| Repeat (cs : charset) (n : nat).     (* cs{n} *)

Definition regex : Type := list re_item.

Section Matching.
Context {py : Interp}.

(** [\w]: alphanumeric or underscore. *)
Definition is_word (c : N) : bool := isalnum c || (c =? 95)%N.

Definition in_charset (cs : charset) (c : N) : bool :=
  match cs with
  | Digit => isdecimal c
  | UpperDigit => (65 <=? c)%N && (c <=? 90)%N || (48 <=? c)%N && (c <=? 57)%N
  end.

Definition word_opt (c : option N) : bool :=
  match c with
  | Some x => is_word x
  | None => false
  end.

(** [\b] between the character before the position ([prev], [None] at the
    start of the text) and the rest of the text [s]. *)
Definition at_boundary (prev : option N) (s : str) : bool :=
  xorb (word_opt prev) (word_opt (hd_error s)).

(** [cs{n}] at the head of [s]: the matched characters and what follows. *)
Fixpoint match_repeat (cs : charset) (n : nat) (s : str) : option (str * str) :=
  match n with
  | O => Some ([], s)
  | S n' =>
      match s with
      | [] => None
      | c :: s' =>
          if in_charset cs c then
            match match_repeat cs n' s' with
            | Some (m, rest) => Some (c :: m, rest)
            | None => None
            end
          else None
      end
  end.

Definition last_char (m : str) (prev : option N) : option N :=
  match rev m with
  | c :: _ => Some c
  | [] => prev
  end.

(** The pattern [r] anchored at the current position: the matched text. *)
Fixpoint match_here (r : regex) (prev : option N) (s : str) : option str :=
  match r with
  | [] => Some []
  | WordBoundary :: r' =>
      if at_boundary prev s then match_here r' prev s else None
  | Repeat cs n :: r' =>
      match match_repeat cs n s with
      | Some (m, rest) =>
          match match_here r' (last_char m prev) rest with
          | Some m' => Some (m ++ m')
          | None => None
          end
      | None => None
      end
  end.

(** [pattern.search]: the start positions are tried from left to right, the
    end of the text included; the result is [(match.start(), match.group(0))]. *)
Fixpoint search_from (r : regex) (pos : nat) (prev : option N) (s : str)
  : option (nat * str) :=
  match match_here r prev s with
  | Some m => Some (pos, m)
  | None =>
      match s with
      | [] => None
      | c :: s' => search_from r (S pos) (Some c) s'
      end
  end.

Definition search (r : regex) (text : str) : option (nat * str) :=
  search_from r 0 None text.

(** [self.patterns]: a dict iterates in insertion order. *)
Definition six_digit : regex := [WordBoundary; Repeat Digit 6; WordBoundary].
Definition four_digit : regex := [WordBoundary; Repeat Digit 4; WordBoundary].
Definition six_char : regex := [WordBoundary; Repeat UpperDigit 6; WordBoundary].
Definition four_char : regex := [WordBoundary; Repeat UpperDigit 4; WordBoundary].

Definition patterns : list (string * regex) :=
  [ ("6-digit"%string, six_digit);
    ("4-digit"%string, four_digit);
    ("6-char"%string, six_char);
    ("4-char"%string, four_char) ].

(** The loop of [extract_code] over the rules [ps]. *)
Fixpoint first_match (ps : list (string * regex)) (text : str) : option str :=
  match ps with
  | [] => None
  | (_, pattern) :: ps' =>
      match search pattern text with
      | Some (_, code) => Some code
      | None => first_match ps' text
      end
  end.

Definition extract_code (text : str) : option str :=
  first_match patterns text.

(** *** What a match is *)

(** The character before position [i] of [text]. *)
Definition prev_char (prev : option N) (text : str) (i : nat) : option N :=
  match i with
  | O => prev
  | S j => nth_error text j
  end.

(** [r] matches [m] at position [i] of [text]. *)
Definition match_at (r : regex) (text : str) (i : nat) (m : str) : Prop :=
  i <= length text
  /\ match_here r (prev_char None text i) (skipn i text) = Some m.

Definition no_match (r : regex) (text : str) : Prop :=
  forall i m, ~ match_at r text i m.

Definition leftmost_match (r : regex) (text : str) (i : nat) (m : str) : Prop :=
  match_at r text i m /\ forall j m', j < i -> ~ match_at r text j m'.

(** [n] characters of the class [cs] at position [i], with a word boundary
    on each side. *)
Definition bounded_run (cs : charset) (n : nat) (text : str) (i : nat) (m : str)
  : Prop :=
  i + n <= length text
  /\ m = firstn n (skipn i text)
  /\ forallb (in_charset cs) m = true
  /\ at_boundary (prev_char None text i) (skipn i text) = true
  /\ at_boundary (prev_char None text (i + n)) (skipn (i + n) text) = true.

End Matching.

(** ** Text recovery from an attributedBody payload *)

Section Normalizer.
Context {py : Interp}.

(** The test of the loop over [text]:
    [(char.isprintable() or char.isspace()) and ord(char) >= 32]. *)
Definition readable (c : N) : bool :=
  (isprintable c || isspace c) && (32 <=? c)%N.

(** [re.sub(r'\s+', ' ', s)]: every maximal run of whitespace becomes one
    space; [in_run] says that the previous character was whitespace. *)
Fixpoint collapse_spaces (in_run : bool) (s : str) : str :=
  match s with
  | [] => []
  | c :: s' =>
      if isspace c then
        if in_run then collapse_spaces true s'
        else 32%N :: collapse_spaces true s'
      else c :: collapse_spaces false s'
  end.

Fixpoint lstrip (s : str) : str :=
  match s with
  | [] => []
  | c :: s' => if isspace c then lstrip s' else s
  end.

(** [s.strip()]. *)
Definition strip (s : str) : str := rev (lstrip (rev (lstrip s))).

(** [bytes.decode('latin-1')]: one code point per byte, never fails. *)
Definition decode_latin1 (b : list byte) : option str :=
  Some (map Byte.to_N b).

(** The two nested [try] blocks around the decoding. *)
Definition decode (b : list byte) : option str :=
  match decode_utf8_ignore b with
  | Some text => Some text
  | None => decode_latin1 b
  end.

(** The cleaned text: readable characters only, whitespace collapsed,
    stripped. *)
Definition clean (text : str) : str :=
  strip (collapse_spaces false (filter readable text)).

Definition extract_text_from_attributed_body (attributed_body : option (list byte))
  : option str :=
  match attributed_body with
  | None => None
  | Some [] => None
  | Some b =>
      match decode b with
      | None => None
      | Some text =>
          let readable_text := clean text in
          if (3 <? length readable_text)%nat then Some readable_text else None
      end
  end.

End Normalizer.

(** ** Rows of the message store and the messages kept from them *)

(** A row of the query of [get_recent_messages]. *)
Record row : Type := {
  row_id : Z;                                (* message.ROWID *)
  row_text : option str;                     (* message.text, NULL is None *)
  row_attributed_body : option (list byte);  (* message.attributedBody *)
  row_date : Z;
  row_chat_id : Z;
  row_chat_identifier : str
}.

(** A tuple appended to [messages]. *)
Record message : Type := {
  message_id : Z;
  message_text : str;
  message_date : Z;
  message_chat_id : Z;
  message_chat_identifier : str
}.

(** What [cursor.execute] and [fetchall] gave: the rows, or [sqlite3.Error]. *)
Inductive query_result : Type :=
| Rows (rows : list row)
| QueryError.

(** Truth value of an optional string and of an optional byte string. *)
Definition truthy {A : Type} (x : option (list A)) : bool :=
  match x with
  | Some (_ :: _) => true
  | _ => false
  end.

Section Poller.
Context {py : Interp}.

(** The text a row resolves to: [text], or the payload's text when [text]
    is empty or NULL and there is a payload. *)
Definition resolve_text (r : row) : option str :=
  if negb (truthy (row_text r)) && truthy (row_attributed_body r)
  then extract_text_from_attributed_body (row_attributed_body r)
  else row_text r.

(** The body of the loop over [rows]: the tuple to append, if any. *)
Definition message_of_row (r : row) : option message :=
  match resolve_text r with
  | Some t =>
      if truthy (Some t) && (0 <? length (strip t))%nat then
        Some {| message_id := row_id r;
                message_text := t;
                message_date := row_date r;
                message_chat_id := row_chat_id r;
                message_chat_identifier := row_chat_identifier r |}
      else None
  | None => None
  end.

Fixpoint messages_of_rows (rows : list row) : list message :=
  match rows with
  | [] => []
  | r :: rows' =>
      match message_of_row r with
      | Some m => m :: messages_of_rows rows'
      | None => messages_of_rows rows'
      end
  end.

Definition get_recent_messages (q : query_result) : list message :=
  match q with
  | Rows rows => messages_of_rows rows
  | QueryError => []
  end.

End Poller.

(** ** The monitor and the outside world *)

(** What the monitor did, in order: the messages handed to
    [process_message], the runs of [pbcopy] with their outcome, and the
    notifications requested. *)
Inductive event : Type :=
| Processing (id : Z)
| Pbcopy (text : str) (ok : bool)
| Notification (title message : str) (sound : bool).

(** The fields of [TwoFactorMonitor] that change, and the events so far. *)
Record monitor : Type := {
  last_message_id : Z;
  processed_codes : list str;
  output : list event
}.

Definition max_processed_codes : nat := 10.

(** The state [__init__] leaves. *)
Definition init : monitor :=
  {| last_message_id := 0; processed_codes := []; output := [] |}.

(** Whether a run of [pbcopy] succeeds, given everything that happened
    before it and the text to copy. *)
Class System : Type := {
  pbcopy : list event -> str -> bool
}.

Definition emit (e : event) (st : monitor) : monitor :=
  {| last_message_id := last_message_id st;
     processed_codes := processed_codes st;
     output := output st ++ [e] |}.

Definition set_last_message_id (id : Z) (st : monitor) : monitor :=
  {| last_message_id := id;
     processed_codes := processed_codes st;
     output := output st |}.

Definition set_processed_codes (codes : list str) (st : monitor) : monitor :=
  {| last_message_id := last_message_id st;
     processed_codes := codes;
     output := output st |}.

(** [l[-n:]] for a positive [n]. *)
Definition last_n {A : Type} (n : nat) (l : list A) : list A :=
  skipn (length l - n) l.

(** Lines 196 to 202 on the list alone: append, then keep the last
    [max_processed_codes] entries. *)
Definition add_processed_code (code : str) (codes : list str) : list str :=
  let codes := codes ++ [code] in
  if (max_processed_codes <? length codes)%nat
  then last_n max_processed_codes codes
  else codes.

(** [code not in self.processed_codes]. *)
Definition is_new (code : str) (codes : list str) : bool :=
  negb (mem_str code codes).

(** What [process_message] does to the list for a detected code whose copy
    succeeds: the membership test, then lines 196 to 202. *)
Definition remember (code : str) (codes : list str) : list str :=
  if is_new code codes then add_processed_code code codes else codes.

Definition str_eq_dec : forall a b : str, {a = b} + {a <> b} :=
  list_eq_dec N.eq_dec.

(** How many distinct codes other than [c] the list [l] holds. *)
Definition distinct_others (c : str) (l : list str) : nat :=
  length (nodup str_eq_dec (remove str_eq_dec c l)).

Definition detected_title : str := lit "2FA Code Detected " ++ [10003%N].

Section Monitor.
Context {py : Interp} {os : System}.

(** Exceptions of the subprocess are caught: the call never fails and its
    result is not looked at. *)
Definition show_notification (title message : str) (sound : bool) (st : monitor)
  : monitor :=
  emit (Notification title message sound) st.

Definition copy_to_clipboard (text : str) (st : monitor) : bool * monitor :=
  let ok := pbcopy (output st) text in
  (ok, emit (Pbcopy text ok) st).

Definition process_message (message_text : str) (message_id chat_id : Z)
  (st : monitor) : option str * monitor :=
  let st := emit (Processing message_id) st in
  let code := extract_code message_text in
  if truthy code then
    match code with
    | Some code =>
        if is_new code (processed_codes st) then
          let (ok, st) := copy_to_clipboard code st in
          if ok then
            let st := show_notification detected_title
                        (lit "Code copied to clipboard: " ++ code) true st in
            let st := set_processed_codes
                        (add_processed_code code (processed_codes st)) st in
            (Some code, st)
          else (None, st)
        else (None, st)
    | None => (None, st)
    end
  else (None, st).

(** The body of the loop of [check_for_new_messages]. *)
Definition check_message (m : message) (st : monitor) : monitor :=
  if (last_message_id st <? message_id m)%Z then
    let st := set_last_message_id (message_id m) st in
    snd (process_message (message_text m) (message_id m) (message_chat_id m) st)
  else st.

(** The loop of [check_for_new_messages], in the order of [messages]. *)
Fixpoint check_messages (messages : list message) (st : monitor) : monitor :=
  match messages with
  | [] => st
  | m :: messages' => check_messages messages' (check_message m st)
  end.

Definition check_for_new_messages (q : query_result) (st : monitor) : monitor :=
  let messages := get_recent_messages q in
  match messages with
  | [] => st
  | _ :: _ => check_messages messages st
  end.

(** The polls of the [while True] loop that complete before the interrupt,
    each with what the store answered. *)
Fixpoint polling (polls : list query_result) (st : monitor) : monitor :=
  match polls with
  | [] => st
  | q :: polls' => polling polls' (check_for_new_messages q st)
  end.

Definition run (db_exists : bool) (polls : list query_result) (st : monitor)
  : monitor :=
  if db_exists then
    let st := show_notification (lit "2FA Monitor Active")
                (lit "Monitoring for 2FA codes in Messages") true st in
    let st := polling polls st in
    show_notification (lit "2FA Monitor") (lit "2FA Code Monitor stopped") false st
  else st.

End Monitor.

(** The identifiers handed to [process_message], in order. *)
Fixpoint processed_ids (evs : list event) : list Z :=
  match evs with
  | [] => []
  | Processing id :: evs' => id :: processed_ids evs'
  | _ :: evs' => processed_ids evs'
  end.

(** The codes copied to the clipboard and announced, in order. *)
Fixpoint emitted_codes (evs : list event) : list str :=
  match evs with
  | [] => []
  | Pbcopy code true :: evs' => code :: emitted_codes evs'
  | _ :: evs' => emitted_codes evs'
  end.

(** From [st] to [st'] the watermark did not go down, and the messages
    processed in between have identifiers above the watermark of [st], up to
    that of [st'], each larger than the one before. *)
Definition advances (st st' : monitor) : Prop :=
  (last_message_id st <= last_message_id st')%Z
  /\ exists evs,
       output st' = output st ++ evs
       /\ Sorted.StronglySorted Z.lt (processed_ids evs)
       /\ Forall (fun id => (last_message_id st < id <= last_message_id st')%Z)
            (processed_ids evs).

(** Two systems for the examples: [pbcopy] always works, or never does. *)
Definition working_clipboard : System := {| pbcopy := fun _ _ => true |}.
Definition failing_clipboard : System := {| pbcopy := fun _ _ => false |}.

(** Sample data for the examples. *)
Definition textless_row : row :=
  {| row_id := 7; row_text := None; row_attributed_body := None;
     row_date := 0; row_chat_id := 1; row_chat_identifier := lit "+15550100" |}.

Definition hi_row : row :=
  {| row_id := 7; row_text := None; row_attributed_body := Some [x68; x69];
     row_date := 0; row_chat_id := 1; row_chat_identifier := lit "+15550100" |}.

Definition code_row : row :=
  {| row_id := 9; row_text := Some (lit "Your code is 482913, expires in 10 min");
     row_attributed_body := None;
     row_date := 0; row_chat_id := 1; row_chat_identifier := lit "+15550100" |}.

Definition at_watermark_4 : monitor :=
  {| last_message_id := 4; processed_codes := []; output := [] |}.

(** ** Notions used to state further properties *)

(** A capital letter of [A-Z]. *)
Definition is_upper (c : N) : bool := (65 <=? c)%N && (c <=? 90)%N.

Section FurtherNotions.
Context {py : Interp}.

(** No whitespace character follows another one and every whitespace
    character is a space; [after_space] says that the character before [s]
    was whitespace. *)
Fixpoint single_spaced (after_space : bool) (s : str) : bool :=
  match s with
  | [] => true
  | c :: s' =>
      if isspace c then negb after_space && (c =? 32)%N && single_spaced true s'
      else single_spaced false s'
  end.

(** The rows from which [get_recent_messages] keeps a message. *)
Definition kept (r : row) : bool :=
  match message_of_row r with
  | Some _ => true
  | None => false
  end.

End FurtherNotions.

(** Between two occurrences of one code there are at least
    [max_processed_codes] other entries. *)
Definition spaced_repeats (codes : list str) : Prop :=
  forall a c b d, codes = a ++ c :: b ++ c :: d -> max_processed_codes <= length b.

(** The list of processed codes is the end of the list of codes copied so
    far, and the copies of one code are spaced. *)
Definition tracks_copies (st : monitor) : Prop :=
  processed_codes st
  = last_n max_processed_codes (emitted_codes (output st))
  /\ spaced_repeats (emitted_codes (output st)).

(** The AppleScript text [show_notification] hands to [osascript -e]
    (lines 94 to 98); 34 is the double quote. *)
Definition notification_script (title message : str) (sound : bool) : str :=
  let sound_part :=
    if sound then lit " sound name " ++ [34%N] ++ lit "Glass" ++ [34%N] else [] in
  lit "display notification " ++ [34%N] ++ message ++ [34%N]
  ++ lit " with title " ++ [34%N] ++ title ++ [34%N] ++ sound_part.

(** Further sample data. *)
Definition blank_text_row : row :=
  {| row_id := 11; row_text := Some (lit "   ");
     row_attributed_body :=
       Some [x59; x6f; x75; x72; x20; x63; x6f; x64; x65; x20;
             x31; x32; x33; x34; x35; x36];
     row_date := 0; row_chat_id := 1; row_chat_identifier := lit "+15550100" |}.

Definition message_with (id : Z) (text : str) : message :=
  {| message_id := id; message_text := text; message_date := 0;
     message_chat_id := 1; message_chat_identifier := lit "+15550100" |}.

Definition twelve_messages : list message :=
  [ message_with 1 (lit "code 000001"); message_with 2 (lit "code 000002");
    message_with 3 (lit "code 000003"); message_with 4 (lit "code 000004");
    message_with 5 (lit "code 000005"); message_with 6 (lit "code 000006");
    message_with 7 (lit "code 000007"); message_with 8 (lit "code 000008");
    message_with 9 (lit "code 000009"); message_with 10 (lit "code 000010");
    message_with 11 (lit "code 000011"); message_with 12 (lit "code 000001") ].

(** * Properties *)

(** ** Strings and membership *)

Lemma str_eqb_eq (a b : str) : str_eqb a b = true <-> a = b.
Proof.
  revert b; induction a as [|x a IH]; intros [|y b]; simpl;
    try (split; [discriminate | congruence]); [tauto|].
  rewrite andb_true_iff, N.eqb_eq, IH. split.
  - intros [-> ->]; reflexivity.
  - intros E; injection E; auto.
Qed.

Lemma mem_str_In (c : str) (l : list str) : mem_str c l = true <-> In c l.
Proof.
  unfold mem_str. rewrite existsb_exists. split.
  - intros (x & Hx & E). apply str_eqb_eq in E. subst; assumption.
  - intros H. exists c. split; [assumption | apply str_eqb_eq; reflexivity].
Qed.

Lemma is_new_true (c : str) (l : list str) : is_new c l = true <-> ~ In c l.
Proof.
  unfold is_new. rewrite negb_true_iff, <- mem_str_In.
  destruct (mem_str c l); split; intros; congruence.
Qed.

Lemma is_new_false (c : str) (l : list str) : is_new c l = false <-> In c l.
Proof. unfold is_new. rewrite negb_false_iff. apply mem_str_In. Qed.

(** ** Matching *)

Section MatchingFacts.
Context {py : Interp}.

Lemma match_repeat_spec (cs : charset) (n : nat) (s m rest : str) :
  match_repeat cs n s = Some (m, rest)
  <-> length m = n /\ s = m ++ rest /\ forallb (in_charset cs) m = true.
Proof.
  revert s m rest; induction n as [|n IH]; intros s m rest; simpl.
  - split.
    + intros E; injection E as <- <-. auto.
    + intros (Hl & -> & _). destruct m; [reflexivity | discriminate].
  - destruct s as [|c s'].
    + split; [discriminate|]. intros (Hl & E & _).
      destruct m; [discriminate | discriminate].
    + destruct (in_charset cs c) eqn:Ec.
      * destruct (match_repeat cs n s') as [[m1 rest1]|] eqn:E1.
        -- apply IH in E1. destruct E1 as (Hl1 & -> & Hf1). split.
           ++ intros E; injection E as <- <-. simpl. rewrite Ec, Hf1. auto.
           ++ intros (Hl & E & Hf). destruct m as [|x m]; [discriminate|].
              simpl in *. injection E as -> E. injection Hl as Hl.
              assert (m = m1 /\ rest = rest1) as [-> ->]; [|reflexivity].
              revert E Hl. subst n. clear.
              revert m1; induction m as [|y m IHm]; intros [|z m1] E Hl;
                simpl in *; try discriminate; auto.
              injection E as -> E. injection Hl as Hl.
              destruct (IHm _ E Hl) as [-> ->]. auto.
        -- split; [discriminate|]. intros (Hl & E & Hf).
           destruct m as [|x m]; [discriminate|].
           simpl in *. injection E as -> E. injection Hl as Hl.
           apply andb_true_iff in Hf. destruct Hf as [_ Hf].
           assert (match_repeat cs n s' = Some (m, rest)) as E2
             by (apply IH; auto).
           congruence.
      * split; [discriminate|]. intros (Hl & E & Hf).
        destruct m as [|x m]; [discriminate|].
        simpl in *. injection E as -> E. rewrite Ec in Hf. discriminate.
Qed.

Lemma match_repeat_length (cs : charset) (n : nat) (s m rest : str) :
  match_repeat cs n s = Some (m, rest) -> length m = n.
Proof. intros H. apply match_repeat_spec in H. tauto. Qed.

(** Each of the four rules matches texts of the length it names. *)
Lemma match_here_rule_length (cs : charset) (n : nat) (prev : option N) (s m : str) :
  match_here [WordBoundary; Repeat cs n; WordBoundary] prev s = Some m ->
  length m = n.
Proof.
  simpl. destruct (at_boundary prev s); [|discriminate].
  destruct (match_repeat cs n s) as [[m1 rest]|] eqn:E; [|discriminate].
  destruct (at_boundary (last_char m1 prev) rest); [|discriminate].
  intros H; injection H as <-. rewrite app_nil_r.
  eapply match_repeat_length; eassumption.
Qed.

Lemma prev_char_skip (prev : option N) (c : N) (s : str) (k : nat) :
  prev_char (Some c) s k = prev_char prev (c :: s) (S k).
Proof. destruct k; reflexivity. Qed.

(** [search_from] returns the first position, counted from where it
    starts, at which the pattern matches. *)
Lemma search_from_Some (r : regex) (s : str) (pos : nat) (prev : option N)
  (p : nat) (m : str) :
  search_from r pos prev s = Some (p, m)
  <-> exists k, p = pos + k /\ k <= length s
      /\ match_here r (prev_char prev s k) (skipn k s) = Some m
      /\ forall j, j < k -> match_here r (prev_char prev s j) (skipn j s) = None.
Proof.
  revert pos prev; induction s as [|c s IH]; intros pos prev; simpl.
  - destruct (match_here r prev []) as [m0|] eqn:E.
    + split.
      * intros H; injection H as <- <-. exists 0. simpl.
        repeat split; auto; try (intros; lia).
      * intros (k & -> & Hk & Hm & _). assert (k = 0) as -> by lia.
        simpl in Hm. rewrite Nat.add_0_r. congruence.
    + split; [discriminate|].
      intros (k & -> & Hk & Hm & _). assert (k = 0) as -> by lia.
      simpl in Hm. congruence.
  - destruct (match_here r prev (c :: s)) as [m0|] eqn:E.
    + split.
      * intros H; injection H as <- <-. exists 0. simpl.
        repeat split; auto; try (intros; lia).
      * intros (k & -> & Hk & Hm & Hmin). destruct k as [|k].
        -- simpl in Hm. rewrite Nat.add_0_r. congruence.
        -- specialize (Hmin 0 ltac:(lia)). simpl in Hmin. congruence.
    + rewrite IH. split.
      * intros (k & -> & Hk & Hm & Hmin). exists (S k).
        rewrite <- prev_char_skip. simpl skipn.
        repeat split; auto; try lia.
        intros [|j] Hj; [exact E|].
        rewrite <- prev_char_skip. simpl skipn. apply Hmin. lia.
      * intros (k & -> & Hk & Hm & Hmin). destruct k as [|k].
        -- simpl in Hm. congruence.
        -- exists k. rewrite <- prev_char_skip in Hm. simpl skipn in Hm.
           repeat split; auto; try lia.
           intros j Hj. specialize (Hmin (S j) ltac:(lia)).
           rewrite <- prev_char_skip in Hmin. exact Hmin.
Qed.

Lemma search_from_None (r : regex) (s : str) (pos : nat) (prev : option N) :
  search_from r pos prev s = None
  <-> forall k, k <= length s ->
      match_here r (prev_char prev s k) (skipn k s) = None.
Proof.
  revert pos prev; induction s as [|c s IH]; intros pos prev; simpl.
  - destruct (match_here r prev []) as [m0|] eqn:E.
    + split; [discriminate|]. intros H. specialize (H 0 ltac:(lia)).
      simpl in H. congruence.
    + split; [|reflexivity]. intros _ k Hk. assert (k = 0) as -> by lia.
      exact E.
  - destruct (match_here r prev (c :: s)) as [m0|] eqn:E.
    + split; [discriminate|]. intros H. specialize (H 0 ltac:(lia)).
      simpl in H. congruence.
    + rewrite IH. split.
      * intros H [|k] Hk; [exact E|].
        rewrite <- prev_char_skip. simpl skipn. apply H. lia.
      * intros H k Hk. specialize (H (S k) ltac:(lia)).
        rewrite <- prev_char_skip in H. exact H.
Qed.

Lemma search_leftmost (r : regex) (text : str) (i : nat) (m : str) :
  search r text = Some (i, m) <-> leftmost_match r text i m.
Proof.
  unfold search, leftmost_match, match_at. rewrite search_from_Some. split.
  - intros (k & -> & Hk & Hm & Hmin). simpl. repeat split; auto.
    intros j m' Hj [_ Hm']. rewrite (Hmin j Hj) in Hm'. discriminate.
  - intros ((Hi & Hm) & Hmin). exists i. repeat split; auto.
    intros j Hj.
    destruct (match_here r (prev_char None text j) (skipn j text)) as [m'|] eqn:E;
      [|reflexivity].
    exfalso. apply (Hmin j m' Hj). split; [lia | exact E].
Qed.

Lemma search_no_match (r : regex) (text : str) :
  search r text = None <-> no_match r text.
Proof.
  unfold search, no_match, match_at. rewrite search_from_None. split.
  - intros H i m [Hi Hm]. rewrite (H i Hi) in Hm. discriminate.
  - intros H k Hk.
    destruct (match_here r (prev_char None text k) (skipn k text)) as [m'|] eqn:E;
      [|reflexivity].
    exfalso. apply (H k m'). split; assumption.
Qed.

Lemma leftmost_match_unique (r : regex) (text : str) (i j : nat) (m m' : str) :
  leftmost_match r text i m -> leftmost_match r text j m' -> i = j /\ m = m'.
Proof.
  intros H1 H2. apply search_leftmost in H1, H2.
  rewrite H1 in H2. injection H2 as -> ->. auto.
Qed.

(** A match anywhere gives a leftmost match. *)
Lemma match_at_leftmost (r : regex) (text : str) (i : nat) (m : str) :
  match_at r text i m ->
  exists i0 m0, i0 <= i /\ leftmost_match r text i0 m0.
Proof.
  intros H. destruct (search r text) as [[i0 m0]|] eqn:E.
  - apply search_leftmost in E. exists i0, m0. split; [|exact E].
    destruct (Nat.le_gt_cases i0 i) as [Hle|Hgt]; [exact Hle|].
    exfalso. destruct E as [_ Hmin]. exact (Hmin i m Hgt H).
  - apply search_no_match in E. exfalso. exact (E i m H).
Qed.

(** The loop over the rules: the result comes from the first rule that
    matches anywhere, and is its leftmost match. *)
Lemma first_match_Some (ps : list (string * regex)) (text code : str) :
  first_match ps text = Some code
  <-> exists before name r after i,
        ps = before ++ (name, r) :: after
        /\ (forall name' r', In (name', r') before -> no_match r' text)
        /\ leftmost_match r text i code.
Proof.
  induction ps as [|[name0 r0] ps IH]; simpl.
  - split; [discriminate|].
    intros (before & name & r & after & i & E & _). destruct before; discriminate.
  - destruct (search r0 text) as [[i0 m0]|] eqn:E0.
    + apply search_leftmost in E0. split.
      * intros H; injection H as <-. exists [], name0, r0, ps, i0.
        simpl. split; [reflexivity | split; [intros ? ? [] | exact E0]].
      * intros (before & name & r & after & i & E & Hb & Hl).
        destruct before as [|[n1 r1] before]; simpl in E.
        -- injection E as <- <- <-.
           destruct (leftmost_match_unique E0 Hl) as [_ ->]. reflexivity.
        -- injection E as <- <- ->. exfalso.
           destruct E0 as [E0 _]. exact (Hb name0 r0 (or_introl eq_refl) _ _ E0).
    + apply search_no_match in E0. rewrite IH. split.
      * intros (before & name & r & after & i & -> & Hb & Hl).
        exists ((name0, r0) :: before), name, r, after, i. simpl.
        split; [reflexivity | split; [|exact Hl]].
        intros name' r' [E | Hin]; [injection E as <- <-; exact E0 | eauto].
      * intros (before & name & r & after & i & E & Hb & Hl).
        destruct before as [|[n1 r1] before]; simpl in E.
        -- injection E as <- <- <-. exfalso. destruct Hl as [Hl _].
           exact (E0 _ _ Hl).
        -- injection E as <- <- ->. exists before, name, r, after, i.
           split; [reflexivity | split; [|exact Hl]].
           intros name' r' Hin. apply (Hb name' r'). right; exact Hin.
Qed.

Lemma first_match_None (ps : list (string * regex)) (text : str) :
  first_match ps text = None
  <-> forall name r, In (name, r) ps -> no_match r text.
Proof.
  induction ps as [|[name0 r0] ps IH]; simpl.
  - split; [intros _ ? ? [] | reflexivity].
  - destruct (search r0 text) as [[i0 m0]|] eqn:E0.
    + split; [discriminate|]. intros H. exfalso.
      apply search_leftmost in E0. destruct E0 as [E0 _].
      exact (H name0 r0 (or_introl eq_refl) _ _ E0).
    + apply search_no_match in E0. rewrite IH. split.
      * intros H name r [E | Hin]; [injection E as <- <-; exact E0 | eauto].
      * intros H name r Hin. apply (H name r). right; exact Hin.
Qed.

(** The character before the end of a match. *)
Lemma last_char_prev_char (text : str) (i : nat) (m rest : str) :
  skipn i text = m ++ rest -> i <= length text ->
  last_char m (prev_char None text i) = prev_char None text (i + length m).
Proof.
  intros E Hi. destruct (rev m) as [|c m'] eqn:Er; unfold last_char; rewrite Er.
  - assert (m = []) as -> by (apply (f_equal (@rev N)) in Er;
      rewrite rev_involutive in Er; exact Er).
    simpl. rewrite Nat.add_0_r. reflexivity.
  - assert (Em : m = rev m' ++ [c]).
    { apply (f_equal (@rev N)) in Er. rewrite rev_involutive in Er. exact Er. }
    subst m. rewrite length_app. simpl length.
    replace (i + (length (rev m') + 1)) with (S (i + length (rev m'))) by lia.
    simpl. rewrite <- (firstn_skipn i text), E.
    rewrite nth_error_app2 by (rewrite length_firstn; lia).
    rewrite length_firstn.
    replace (i + length (rev m') - Nat.min i (length text))
      with (length (rev m')) by lia.
    rewrite <- app_assoc. rewrite nth_error_app2 by lia.
    rewrite Nat.sub_diag. reflexivity.
Qed.

(** A rule [\b cs{n} \b] matches exactly the word-bounded runs of [n]
    characters of the class. *)
Lemma rule_match_at (cs : charset) (n : nat) (text : str) (i : nat) (m : str) :
  match_at [WordBoundary; Repeat cs n; WordBoundary] text i m
  <-> bounded_run cs n text i m.
Proof.
  unfold match_at, bounded_run. simpl match_here. split.
  - intros (Hi & H).
    destruct (at_boundary (prev_char None text i) (skipn i text)) eqn:Eb;
      [|discriminate].
    destruct (match_repeat cs n (skipn i text)) as [[m1 rest]|] eqn:Er;
      [|discriminate].
    destruct (at_boundary (last_char m1 (prev_char None text i)) rest) eqn:Eb2;
      [|discriminate].
    injection H as <-. rewrite app_nil_r.
    apply match_repeat_spec in Er. destruct Er as (Hl & Es & Hf).
    assert (Hlen : i + n <= length text).
    { apply (f_equal (@length N)) in Es.
      rewrite length_skipn, length_app in Es. lia. }
    assert (Erest : rest = skipn (i + n) text).
    { rewrite Nat.add_comm, <- skipn_skipn, Es, <- Hl.
      rewrite skipn_app, skipn_all, Nat.sub_diag. reflexivity. }
    rewrite (last_char_prev_char _ _ _ Es Hi), Hl in Eb2.
    split; [exact Hlen|]. split.
    + rewrite Es, <- Hl, firstn_app, firstn_all, Nat.sub_diag.
      simpl. rewrite app_nil_r. reflexivity.
    + split; [exact Hf|]. split; [reflexivity|].
      rewrite <- Erest. exact Eb2.
  - intros (Hlen & Em & Hf & Hb1 & Hb2).
    split; [lia|]. rewrite Hb1.
    assert (Es : skipn i text = m ++ skipn (i + n) text).
    { rewrite Em, Nat.add_comm, <- skipn_skipn. symmetry. apply firstn_skipn. }
    assert (Hl : length m = n).
    { rewrite Em, length_firstn, length_skipn. lia. }
    assert (Er : match_repeat cs n (skipn i text) = Some (m, skipn (i + n) text))
      by (apply match_repeat_spec; auto).
    rewrite Er. rewrite (last_char_prev_char _ _ _ Es) by lia.
    rewrite Hl, Hb2, app_nil_r. reflexivity.
Qed.

(** A code that [extract_code] returns has six or four characters. *)
Lemma extract_code_length (text code : str) :
  extract_code text = Some code -> length code = 6 \/ length code = 4.
Proof.
  unfold extract_code. rewrite first_match_Some.
  intros (before & name & r & after & i & E & _ & (_ & Hm) & _).
  assert (Hin : In (name, r) patterns) by (rewrite E; apply in_elt).
  unfold patterns in Hin. simpl in Hin.
  destruct Hin as [H | [H | [H | [H | []]]]]; injection H as <- <-;
    apply match_here_rule_length in Hm; auto.
Qed.

Lemma extract_code_truthy (text : str) :
  truthy (extract_code text) = true <-> extract_code text <> None.
Proof.
  destruct (extract_code text) as [code|] eqn:E; simpl.
  - apply extract_code_length in E.
    destruct code; simpl in *; [lia|]. split; [discriminate | reflexivity].
  - split; [discriminate | congruence].
Qed.

End MatchingFacts.

(** *** ASCII text is matched the same way by every interpreter *)

Lemma ascii_interp_tables : AsciiTables ascii_interp.
Proof.
  split; intros c Hc; simpl; apply N.ltb_lt in Hc; rewrite Hc; reflexivity.
Defined.

Lemma ascii_text_check (s : str) :
  forallb (fun c => (c <? 128)%N) s = true -> ascii_text s.
Proof.
  intros H. apply Forall_forall. intros c Hc.
  rewrite forallb_forall in H. apply N.ltb_lt. apply H. exact Hc.
Qed.

Section AsciiTransfer.
Variables I1 I2 : Interp.
Hypothesis T1 : AsciiTables I1.
Hypothesis T2 : AsciiTables I2.

Lemma is_word_ascii (c : N) :
  (c < 128)%N -> is_word (py := I1) c = is_word (py := I2) c.
Proof.
  intros Hc. unfold is_word.
  rewrite (isalnum_ascii (py := I1)), (isalnum_ascii (py := I2)) by exact Hc.
  reflexivity.
Qed.

Lemma in_charset_ascii (cs : charset) (c : N) :
  (c < 128)%N -> in_charset (py := I1) cs c = in_charset (py := I2) cs c.
Proof.
  intros Hc. destruct cs; simpl; [|reflexivity].
  rewrite (isdecimal_ascii (py := I1)), (isdecimal_ascii (py := I2)) by exact Hc.
  reflexivity.
Qed.

Lemma word_opt_ascii (c : option N) :
  ascii_opt c -> word_opt (py := I1) c = word_opt (py := I2) c.
Proof. destruct c; simpl; [apply is_word_ascii | reflexivity]. Qed.

Lemma at_boundary_ascii (prev : option N) (s : str) :
  ascii_opt prev -> ascii_text s ->
  at_boundary (py := I1) prev s = at_boundary (py := I2) prev s.
Proof.
  intros Hp Hs. unfold at_boundary.
  rewrite (word_opt_ascii prev Hp). f_equal. apply word_opt_ascii.
  destruct Hs; simpl; auto.
Qed.

Lemma match_repeat_ascii (cs : charset) (n : nat) (s : str) :
  ascii_text s ->
  match_repeat (py := I1) cs n s = match_repeat (py := I2) cs n s.
Proof.
  revert s; induction n as [|n IH]; intros s Hs; simpl; [reflexivity|].
  destruct Hs as [|c s Hc Hs]; [reflexivity|].
  rewrite (in_charset_ascii cs Hc), (IH s Hs). reflexivity.
Qed.

Lemma last_char_ascii (m : str) (prev : option N) :
  ascii_text m -> ascii_opt prev -> ascii_opt (last_char m prev).
Proof.
  intros Hm Hp. unfold last_char. destruct (rev m) as [|c m'] eqn:E; [exact Hp|].
  simpl. unfold ascii_text in Hm. rewrite Forall_forall in Hm. apply Hm.
  apply in_rev. rewrite E. left; reflexivity.
Qed.

Lemma match_here_ascii (r : regex) (prev : option N) (s : str) :
  ascii_opt prev -> ascii_text s ->
  match_here (py := I1) r prev s = match_here (py := I2) r prev s.
Proof.
  revert prev s; induction r as [|[|cs n] r IH]; intros prev s Hp Hs; simpl.
  - reflexivity.
  - rewrite (at_boundary_ascii prev Hp Hs), (IH prev s Hp Hs). reflexivity.
  - rewrite (match_repeat_ascii cs n Hs).
    destruct (match_repeat (py := I2) cs n s) as [[m rest]|] eqn:E; [|reflexivity].
    apply match_repeat_spec in E. destruct E as (_ & -> & _).
    apply Forall_app in Hs. destruct Hs as [Hm Hrest].
    rewrite (IH (last_char m prev) rest); [reflexivity | | exact Hrest].
    apply last_char_ascii; assumption.
Qed.

Lemma search_from_ascii (r : regex) (s : str) (pos : nat) (prev : option N) :
  ascii_opt prev -> ascii_text s ->
  search_from (py := I1) r pos prev s = search_from (py := I2) r pos prev s.
Proof.
  revert pos prev; induction s as [|c s IH]; intros pos prev Hp Hs; simpl;
    rewrite (match_here_ascii r prev Hp Hs); [reflexivity|].
  destruct (match_here (py := I2) r prev (c :: s)); [reflexivity|].
  inversion Hs; subst. apply IH; assumption.
Qed.

Lemma first_match_ascii (ps : list (string * regex)) (text : str) :
  ascii_text text ->
  first_match (py := I1) ps text = first_match (py := I2) ps text.
Proof.
  intros Ht. induction ps as [|[name r] ps IH]; simpl; [reflexivity|].
  unfold search. rewrite (@search_from_ascii r text 0 None I Ht), IH.
  reflexivity.
Qed.

Lemma extract_code_ascii (text : str) :
  ascii_text text ->
  extract_code (py := I1) text = extract_code (py := I2) text.
Proof. apply first_match_ascii. Qed.

End AsciiTransfer.

(** *** The priority of the rules *)

(** C5: [extract_code] goes through the four rules in the order 6-digit,
    4-digit, 6-char, 4-char; it returns the leftmost match of the first rule
    that matches anywhere in the text, and nothing when no rule matches.  In
    particular a text with a word-bounded run of six digits and a
    word-bounded run of four characters of [A-Z0-9] yields the leftmost
    six-digit run. *)
Theorem extract_code_priority {py : Interp} (text : str) :
  map fst patterns = ["6-digit"; "4-digit"; "6-char"; "4-char"]%string
  /\ (forall code,
        extract_code text = Some code
        <-> exists before name r after i,
              patterns = before ++ (name, r) :: after
              /\ (forall name' r', In (name', r') before -> no_match r' text)
              /\ leftmost_match r text i code)
  /\ (extract_code text = None
      <-> forall name r, In (name, r) patterns -> no_match r text)
  /\ (forall i m j m',
        bounded_run Digit 6 text i m ->
        bounded_run UpperDigit 4 text j m' ->
        exists i0 m0,
          extract_code text = Some m0
          /\ bounded_run Digit 6 text i0 m0
          /\ i0 <= i
          /\ forall k m1, k < i0 -> ~ bounded_run Digit 6 text k m1).
Proof.
  split; [reflexivity|]. split; [intros code; apply first_match_Some|].
  split; [apply first_match_None|].
  intros i m j m' H6 _. apply rule_match_at in H6.
  destruct (match_at_leftmost H6) as (i0 & m0 & Hle & Hl).
  exists i0, m0. split; [|split; [|split]].
  - apply first_match_Some. exists [], "6-digit"%string, six_digit.
    eexists. exists i0. split; [reflexivity|].
    split; [intros ? ? [] | exact Hl].
  - apply rule_match_at. exact (proj1 Hl).
  - exact Hle.
  - intros k m1 Hk Hb. apply rule_match_at in Hb.
    exact (proj2 Hl k m1 Hk Hb).
Qed.

Lemma extract_code_priority_witness :
  exists i0 m0,
    extract_code (py := ascii_interp) (lit "AB12 482913") = Some m0
    /\ bounded_run (py := ascii_interp) Digit 6 (lit "AB12 482913") i0 m0
    /\ i0 <= 5
    /\ forall k m1, k < i0 ->
         ~ bounded_run (py := ascii_interp) Digit 6 (lit "AB12 482913") k m1.
Proof.
  apply (proj2 (proj2 (proj2
           (extract_code_priority (py := ascii_interp) (lit "AB12 482913"))))
         5 (lit "482913") 0 (lit "AB12")).
  - repeat split; try reflexivity; vm_compute; lia.
  - repeat split; try reflexivity; vm_compute; lia.
Defined.

(** C8: in the text "12345678" no six-digit and no four-digit rule matches,
    since inside the run of eight digits no position other than its two ends
    is a word boundary; [extract_code] returns nothing. *)
Theorem eight_digits_no_code {py : Interp} (T : AsciiTables py) :
  no_match six_digit (lit "12345678")
  /\ no_match four_digit (lit "12345678")
  /\ extract_code (lit "12345678") = None.
Proof.
  assert (E : extract_code (lit "12345678") = None).
  { rewrite (extract_code_ascii T ascii_interp_tables)
      by (apply ascii_text_check; reflexivity).
    vm_compute. reflexivity. }
  pose proof (proj1 (first_match_None _ _) E) as H.
  split; [|split; [|exact E]].
  - apply (H "6-digit"%string). simpl; auto.
  - apply (H "4-digit"%string). simpl; auto.
Qed.

Lemma eight_digits_no_code_witness :
  extract_code (py := ascii_interp) (lit "12345678") = None.
Proof.
  apply (@eight_digits_no_code ascii_interp).
  split; intros c Hc; simpl; apply N.ltb_lt in Hc; rewrite Hc; reflexivity.
Defined.

(** ** The list of processed codes *)

Lemma last_n_short {A : Type} (n : nat) (l : list A) :
  length l <= n -> last_n n l = l.
Proof.
  intros H. unfold last_n. replace (length l - n) with 0 by lia. reflexivity.
Qed.

Lemma last_n_length {A : Type} (n : nat) (l : list A) :
  length (last_n n l) = Nat.min n (length l).
Proof. unfold last_n. rewrite length_skipn. lia. Qed.

Lemma last_n_suffix {A : Type} (n : nat) (l : list A) :
  l = firstn (length l - n) l ++ last_n n l.
Proof. unfold last_n. symmetry. apply firstn_skipn. Qed.

(** The list after an append is the end of the old list followed by the new
    code: what is dropped is dropped at the front. *)
Lemma add_processed_code_eq (c : str) (h : list str) :
  add_processed_code c h = last_n max_processed_codes (h ++ [c]).
Proof.
  unfold add_processed_code.
  destruct (Nat.ltb_spec max_processed_codes (length (h ++ [c]))) as [H|H].
  - reflexivity.
  - symmetry. apply last_n_short. assumption.
Qed.

Lemma add_processed_code_length (c : str) (h : list str) :
  length (add_processed_code c h)
  = Nat.min max_processed_codes (length h + 1).
Proof.
  rewrite add_processed_code_eq, last_n_length, length_app. reflexivity.
Qed.

Lemma add_processed_code_split (c : str) (h : list str) :
  add_processed_code c h = skipn (length h + 1 - max_processed_codes) h ++ [c].
Proof.
  rewrite add_processed_code_eq. unfold last_n, max_processed_codes.
  rewrite length_app, skipn_app. simpl length.
  replace (length h + 1 - 10 - length h) with 0 by lia. reflexivity.
Qed.

Lemma add_processed_code_In (c : str) (h : list str) :
  In c (add_processed_code c h).
Proof. rewrite add_processed_code_split. apply in_or_app; right; simpl; auto. Qed.

Lemma NoDup_skipn {A : Type} (n : nat) (l : list A) :
  NoDup l -> NoDup (skipn n l).
Proof.
  intros H. rewrite <- (firstn_skipn n l) in H.
  apply NoDup_app_remove_l in H. assumption.
Qed.

Lemma add_processed_code_NoDup (c : str) (h : list str) :
  NoDup h -> ~ In c h -> NoDup (add_processed_code c h).
Proof.
  intros Hh Hc. rewrite add_processed_code_eq. apply NoDup_skipn.
  apply NoDup_app; [assumption | repeat constructor; simpl; tauto |].
  intros x Hx [<- | []]. contradiction.
Qed.

Lemma fold_add_length (codes h : list str) :
  length h <= max_processed_codes ->
  length (fold_left (fun h c => add_processed_code c h) codes h)
  <= max_processed_codes.
Proof.
  revert h; induction codes as [|c codes IH]; intros h Hh; simpl.
  - assumption.
  - apply IH. rewrite add_processed_code_length. lia.
Qed.

(** *** Distinct codes *)

Lemma distinct_others_ge (c : str) (l' l : list str) :
  NoDup l' -> ~ In c l' -> incl l' l -> length l' <= distinct_others c l.
Proof.
  intros Hnd Hc Hincl. unfold distinct_others.
  apply NoDup_incl_length; [assumption|].
  intros x Hx. apply nodup_In. apply in_in_remove.
  - intros ->. contradiction.
  - apply Hincl; assumption.
Qed.

Lemma distinct_others_incl (c : str) (l1 l2 : list str) :
  incl l1 l2 -> distinct_others c l1 <= distinct_others c l2.
Proof.
  intros Hincl. unfold distinct_others at 1.
  apply distinct_others_ge.
  - apply NoDup_nodup.
  - intros H. apply nodup_In in H. apply in_remove in H. tauto.
  - intros x Hx. apply nodup_In in Hx. apply in_remove in Hx.
    apply Hincl. tauto.
Qed.

(** A code stays in the list as long as fewer than ten distinct other codes
    went through [remember] after it: [post] holds the codes appended since,
    [later] the ones still to come. *)
Lemma remember_keeps (c : str) (later pre post : list str) :
  NoDup post -> ~ In c post ->
  length (pre ++ c :: post) <= max_processed_codes ->
  distinct_others c (post ++ later) < max_processed_codes ->
  In c (fold_left (fun h x => remember x h) later (pre ++ c :: post)).
Proof.
  revert pre post; induction later as [|x later IH]; intros pre post Hnd Hc Hlen Hd.
  - simpl. apply in_or_app; right; simpl; auto.
  - simpl. unfold remember at 2.
    destruct (is_new x (pre ++ c :: post)) eqn:E.
    + apply is_new_true in E.
      assert (Hxc : x <> c) by (intros ->; apply E, in_or_app; right; simpl; auto).
      assert (Hxp : ~ In x post)
        by (intros H; apply E, in_or_app; right; simpl; auto).
      assert (Hnd' : NoDup (post ++ [x])).
      { apply NoDup_app; [assumption | repeat constructor; simpl; tauto |].
        intros y Hy [<- | []]. contradiction. }
      assert (Hc' : ~ In c (post ++ [x])).
      { intros H. apply in_app_or in H. destruct H as [H | [H | []]]; auto. }
      assert (Hd' : distinct_others c ((post ++ [x]) ++ later) < max_processed_codes)
        by (rewrite <- app_assoc; exact Hd).
      rewrite add_processed_code_split.
      destruct (Nat.leb_spec (length (pre ++ c :: post) + 1) max_processed_codes)
        as [Hfit | Hfull].
      * replace (length (pre ++ c :: post) + 1 - max_processed_codes) with 0 by lia.
        simpl skipn. rewrite <- app_assoc. simpl app.
        change (c :: post ++ [x]) with (c :: (post ++ [x])).
        apply IH; try assumption.
        rewrite length_app in *. simpl length in *. rewrite length_app. simpl. lia.
      * replace (length (pre ++ c :: post) + 1 - max_processed_codes) with 1 by lia.
        destruct pre as [|p pre].
        -- exfalso. simpl in Hlen, Hfull.
           assert (length (post ++ [x]) <= distinct_others c (post ++ x :: later)).
           { apply distinct_others_ge; try assumption.
             intros y Hy. apply in_app_or in Hy. apply in_or_app.
             simpl in *. tauto. }
           rewrite length_app in H. simpl in H.
           unfold max_processed_codes in *. lia.
        -- simpl skipn. rewrite <- app_assoc. simpl app.
           change (c :: post ++ [x]) with (c :: (post ++ [x])).
           apply IH; try assumption.
           simpl in Hlen. rewrite length_app in *. simpl length in *.
           rewrite length_app. simpl. lia.
    + apply IH; try assumption.
      eapply Nat.le_lt_trans; [|exact Hd].
      apply distinct_others_incl. intros y Hy.
      apply in_app_or in Hy. apply in_or_app. simpl. tauto.
Qed.

(** C4: once a code [c] has been appended it is found in the list, and it is
    still found after any further codes went through the membership test and
    the append, as long as fewer than ten distinct codes other than [c] are
    among them; the list after an append is the end of the old list followed
    by [c], so entries leave at the front, oldest first. *)
Theorem appended_code_stays (c : str) (h later : list str) :
  distinct_others c later < max_processed_codes ->
  is_new c (add_processed_code c h) = false
  /\ is_new c (fold_left (fun h x => remember x h) later (add_processed_code c h))
     = false
  /\ add_processed_code c h
     = skipn (length (h ++ [c]) - max_processed_codes) (h ++ [c]).
Proof.
  intros Hd. split; [|split].
  - apply is_new_false, add_processed_code_In.
  - apply is_new_false. rewrite add_processed_code_split.
    change [c] with (c :: []).
    apply remember_keeps.
    + constructor.
    + simpl; tauto.
    + rewrite <- add_processed_code_split, add_processed_code_length. lia.
    + exact Hd.
  - apply add_processed_code_eq.
Qed.

Lemma appended_code_stays_witness :
  is_new (lit "482913") (add_processed_code (lit "482913") []) = false
  /\ is_new (lit "482913")
       (fold_left (fun h x => remember x h)
          [lit "1111"; lit "2222"; lit "1111"; lit "3333"]
          (add_processed_code (lit "482913") []))
     = false
  /\ add_processed_code (lit "482913") []
     = skipn (length ([] ++ [lit "482913"]) - max_processed_codes)
         ([] ++ [lit "482913"]).
Proof.
  apply (appended_code_stays (lit "482913") []
           [lit "1111"; lit "2222"; lit "1111"; lit "3333"]).
  vm_compute. lia.
Defined.

(** ** The pipeline *)

Lemma processed_ids_app (a b : list event) :
  processed_ids (a ++ b) = processed_ids a ++ processed_ids b.
Proof.
  induction a as [|e a IH]; simpl; [reflexivity|].
  destruct e; simpl; rewrite IH; reflexivity.
Qed.

Section PipelineFacts.
Context {py : Interp} {os : System}.

(** [process_message] case by case. *)
Lemma process_message_eq (text : str) (id chat : Z) (st : monitor) :
  process_message text id chat st =
  match extract_code text with
  | Some code =>
      if is_new code (processed_codes st) then
        if pbcopy (output st ++ [Processing id]) code then
          (Some code,
           {| last_message_id := last_message_id st;
              processed_codes := add_processed_code code (processed_codes st);
              output := ((output st ++ [Processing id]) ++ [Pbcopy code true])
                        ++ [Notification detected_title
                              (lit "Code copied to clipboard: " ++ code) true] |})
        else
          (None,
           {| last_message_id := last_message_id st;
              processed_codes := processed_codes st;
              output := (output st ++ [Processing id]) ++ [Pbcopy code false] |})
      else (None, emit (Processing id) st)
  | None => (None, emit (Processing id) st)
  end.
Proof.
  unfold process_message.
  pose proof (extract_code_truthy text) as Ht.
  destruct (extract_code text) as [code|] eqn:E.
  - rewrite (proj2 Ht) by discriminate.
    unfold copy_to_clipboard, show_notification, set_processed_codes, emit.
    cbn [last_message_id processed_codes output].
    destruct (is_new code (processed_codes st)); [|reflexivity].
    destruct (pbcopy (output st ++ [Processing id]) code); reflexivity.
  - reflexivity.
Qed.

Lemma process_message_step (text : str) (id chat : Z) (st : monitor) :
  let st' := snd (process_message text id chat st) in
  last_message_id st' = last_message_id st
  /\ (exists evs, output st' = output st ++ Processing id :: evs
                  /\ processed_ids evs = [])
  /\ (processed_codes st' = processed_codes st
      \/ exists code, ~ In code (processed_codes st)
           /\ processed_codes st' = add_processed_code code (processed_codes st)).
Proof.
  rewrite process_message_eq.
  destruct (extract_code text) as [code|].
  - destruct (is_new code (processed_codes st)) eqn:En.
    + destruct (pbcopy (output st ++ [Processing id]) code); cbn.
      * split; [reflexivity|]. split.
        -- eexists. rewrite <- !app_assoc. simpl. split; reflexivity.
        -- right. exists code. split; [apply is_new_true; exact En | reflexivity].
      * split; [reflexivity|]. split; [|left; reflexivity].
        eexists. rewrite <- !app_assoc. simpl. split; reflexivity.
    + cbn. split; [reflexivity|]. split; [|left; reflexivity].
      exists []. split; reflexivity.
  - cbn. split; [reflexivity|]. split; [|left; reflexivity].
    exists []. split; reflexivity.
Qed.

Lemma check_message_skip (m : message) (st : monitor) :
  (message_id m <= last_message_id st)%Z -> check_message m st = st.
Proof.
  intros H. unfold check_message.
  destruct (Z.ltb_spec (last_message_id st) (message_id m)); [lia | reflexivity].
Qed.

Lemma check_message_new (m : message) (st : monitor) :
  (last_message_id st < message_id m)%Z ->
  let st' := check_message m st in
  last_message_id st' = message_id m
  /\ (exists evs, output st' = output st ++ Processing (message_id m) :: evs
                  /\ processed_ids evs = [])
  /\ (processed_codes st' = processed_codes st
      \/ exists code, ~ In code (processed_codes st)
           /\ processed_codes st' = add_processed_code code (processed_codes st)).
Proof.
  intros H. unfold check_message.
  destruct (Z.ltb_spec (last_message_id st) (message_id m)); [|lia].
  apply (process_message_step (message_text m) (message_id m) (message_chat_id m)
           (set_last_message_id (message_id m) st)).
Qed.

Lemma check_messages_app (ms1 ms2 : list message) (st : monitor) :
  check_messages (ms1 ++ ms2) st = check_messages ms2 (check_messages ms1 st).
Proof.
  revert st; induction ms1 as [|m ms1 IH]; intros st; simpl; [reflexivity|].
  apply IH.
Qed.

Lemma check_for_new_messages_eq (q : query_result) (st : monitor) :
  check_for_new_messages q st = check_messages (get_recent_messages q) st.
Proof.
  unfold check_for_new_messages. destruct (get_recent_messages q); reflexivity.
Qed.

Lemma messages_of_rows_app (rows1 rows2 : list row) :
  messages_of_rows (rows1 ++ rows2)
  = messages_of_rows rows1 ++ messages_of_rows rows2.
Proof.
  induction rows1 as [|r rows1 IH]; simpl; [reflexivity|].
  destruct (message_of_row r); simpl; rewrite IH; reflexivity.
Qed.

(** *** Invariants of the list of processed codes *)

Section CodesInvariant.
Variable P : list str -> Prop.
Hypothesis P_add :
  forall c h, P h -> ~ In c h -> P (add_processed_code c h).

Lemma check_message_inv (m : message) (st : monitor) :
  P (processed_codes st) -> P (processed_codes (check_message m st)).
Proof.
  intros H.
  destruct (Z.ltb_spec (last_message_id st) (message_id m)) as [Hlt|Hge].
  - destruct (check_message_new m st Hlt) as (_ & _ & [E | (c & Hc & E)]);
      rewrite E; auto.
  - rewrite check_message_skip by exact Hge. exact H.
Qed.

Lemma check_messages_inv (ms : list message) (st : monitor) :
  P (processed_codes st) -> P (processed_codes (check_messages ms st)).
Proof.
  revert st; induction ms as [|m ms IH]; intros st H; simpl; [exact H|].
  apply IH, check_message_inv, H.
Qed.

Lemma polling_inv (polls : list query_result) (st : monitor) :
  P (processed_codes st) -> P (processed_codes (polling polls st)).
Proof.
  revert st; induction polls as [|q polls IH]; intros st H; simpl; [exact H|].
  apply IH. rewrite check_for_new_messages_eq. apply check_messages_inv, H.
Qed.

Lemma run_inv (db_exists : bool) (polls : list query_result) (st : monitor) :
  P (processed_codes st) -> P (processed_codes (run db_exists polls st)).
Proof.
  intros H. unfold run. destruct db_exists; [|exact H].
  cbn. apply polling_inv. exact H.
Qed.

End CodesInvariant.

Lemma run_codes_bounded (db_exists : bool) (polls : list query_result) :
  length (processed_codes (run db_exists polls init)) <= max_processed_codes.
Proof.
  apply (run_inv (fun h => length h <= max_processed_codes)).
  - intros c h _ _. rewrite add_processed_code_length. lia.
  - simpl. lia.
Qed.

End PipelineFacts.

(** C10: along any run of the monitor the list of processed codes holds no
    code twice: after any number of polls and any further part of a batch,
    and when [run] ends. *)
Theorem processed_codes_distinct {py : Interp} {os : System}
  (db_exists : bool) (polls : list query_result) (ms : list message) :
  NoDup (processed_codes (check_messages ms (polling polls init)))
  /\ NoDup (processed_codes (run db_exists polls init)).
Proof.
  split.
  - apply (check_messages_inv (@NoDup str) add_processed_code_NoDup).
    apply (polling_inv (@NoDup str) add_processed_code_NoDup). constructor.
  - apply (run_inv (@NoDup str) add_processed_code_NoDup). constructor.
Qed.

(** C6: however many codes are appended, the list of processed codes never
    holds more than ten entries: this holds for any sequence of appends
    starting from the empty list, and for the list the monitor keeps along
    any run. *)
Theorem processed_codes_bounded {py : Interp} {os : System}
  (codes : list str) (db_exists : bool) (polls : list query_result) :
  length (fold_left (fun h c => add_processed_code c h) codes []) <= 10
  /\ length (processed_codes (run db_exists polls init)) <= 10.
Proof.
  split.
  - apply fold_add_length. simpl. lia.
  - apply run_codes_bounded.
Qed.

(** ** The watermark *)

Lemma StronglySorted_app_lt (l1 l2 : list Z) :
  StronglySorted Z.lt l1 -> StronglySorted Z.lt l2 ->
  (forall x y, In x l1 -> In y l2 -> (x < y)%Z) ->
  StronglySorted Z.lt (l1 ++ l2).
Proof.
  intros H1 H2 H. induction H1 as [|x l1 Hs IH Hx]; simpl; [exact H2|].
  constructor.
  - apply IH. intros a b Ha Hb. apply H; simpl; auto.
  - apply Forall_app. split; [exact Hx|].
    apply Forall_forall. intros y Hy. apply H; simpl; auto.
Qed.

Lemma advances_refl (st : monitor) : advances st st.
Proof.
  split; [lia|]. exists []. rewrite app_nil_r. simpl.
  repeat split; constructor.
Qed.

Lemma advances_trans (st0 st1 st2 : monitor) :
  advances st0 st1 -> advances st1 st2 -> advances st0 st2.
Proof.
  intros (Hw1 & evs1 & E1 & Hs1 & Hf1) (Hw2 & evs2 & E2 & Hs2 & Hf2).
  split; [lia|]. exists (evs1 ++ evs2).
  rewrite Forall_forall in Hf1, Hf2.
  split; [rewrite E2, E1, app_assoc; reflexivity|].
  rewrite processed_ids_app. split.
  - apply StronglySorted_app_lt; try assumption.
    intros x y Hx Hy. specialize (Hf1 x Hx). specialize (Hf2 y Hy). lia.
  - apply Forall_forall. intros x Hx. apply in_app_or in Hx.
    destruct Hx as [Hx|Hx]; [specialize (Hf1 x Hx) | specialize (Hf2 x Hx)]; lia.
Qed.

Section WatermarkFacts.
Context {py : Interp} {os : System}.

Lemma check_message_advances (m : message) (st : monitor) :
  advances st (check_message m st).
Proof.
  destruct (Z.ltb_spec (last_message_id st) (message_id m)) as [Hlt|Hge].
  - destruct (check_message_new m st Hlt) as (Hw & (evs & E & Hp) & _).
    split; [lia|]. exists (Processing (message_id m) :: evs).
    split; [exact E|]. simpl. rewrite Hp, Hw. split.
    + repeat constructor.
    + constructor; [lia | constructor].
  - rewrite check_message_skip by exact Hge. apply advances_refl.
Qed.

Lemma check_messages_advances (ms : list message) (st : monitor) :
  advances st (check_messages ms st).
Proof.
  revert st; induction ms as [|m ms IH]; intros st; simpl.
  - apply advances_refl.
  - eapply advances_trans; [apply check_message_advances | apply IH].
Qed.

Lemma polling_advances (polls : list query_result) (st : monitor) :
  advances st (polling polls st).
Proof.
  revert st; induction polls as [|q polls IH]; intros st; simpl.
  - apply advances_refl.
  - eapply advances_trans; [|apply IH].
    rewrite check_for_new_messages_eq. apply check_messages_advances.
Qed.

(** The watermark after a batch is the largest of the old watermark and the
    identifiers in the batch, whatever the order. *)
Lemma check_messages_watermark (ms : list message) (st : monitor) :
  last_message_id (check_messages ms st)
  = fold_left Z.max (map message_id ms) (last_message_id st).
Proof.
  revert st; induction ms as [|m ms IH]; intros st; simpl; [reflexivity|].
  rewrite IH. f_equal.
  destruct (Z.ltb_spec (last_message_id st) (message_id m)) as [Hlt|Hge].
  - destruct (check_message_new m st Hlt) as (Hw & _). rewrite Hw. lia.
  - rewrite check_message_skip by exact Hge. lia.
Qed.

Lemma check_message_new_ids (m : message) (st : monitor) :
  (last_message_id st < message_id m)%Z ->
  processed_ids (output (check_message m st))
  = processed_ids (output st) ++ [message_id m].
Proof.
  intros Hlt. destruct (check_message_new m st Hlt) as (_ & (evs & E & Hp) & _).
  rewrite E, processed_ids_app. simpl. rewrite Hp. reflexivity.
Qed.

End WatermarkFacts.

(** C7: from any point of an execution on, through the rest of the current
    batch and any further polls, the watermark does not decrease, every
    message processed has an identifier above the watermark of that point,
    and the identifiers processed increase strictly, so none is processed
    twice. *)
Theorem watermark_monotone {py : Interp} {os : System}
  (ms : list message) (polls : list query_result) (st : monitor) :
  let st' := polling polls (check_messages ms st) in
  (last_message_id st <= last_message_id st')%Z
  /\ exists evs,
       output st' = output st ++ evs
       /\ Forall (fun id => (last_message_id st < id)%Z) (processed_ids evs)
       /\ StronglySorted Z.lt (processed_ids evs).
Proof.
  destruct (advances_trans (check_messages_advances ms st)
              (polling_advances polls (check_messages ms st)))
    as (Hw & evs & E & Hs & Hf).
  split; [exact Hw|]. exists evs. split; [exact E|]. split; [|exact Hs].
  eapply Forall_impl; [|exact Hf]. simpl. intros; lia.
Qed.

(** C1, on the code: from watermark 4 the batch in the order 5, 3, 8
    processes 5 and 8 and skips 3, but the same batch in the order 8, 5, 3,
    newest first as the store delivers it, processes 8 alone: once 8 has
    moved the watermark, 5 is skipped with 3.  The watermark ends at 8 in
    both orders. *)
Theorem batch_order_matters {py : Interp} {os : System}
  (t5 t3 t8 : str) (codes : list str) (evs : list event) :
  let m id text :=
    {| message_id := id; message_text := text; message_date := 0;
       message_chat_id := 1; message_chat_identifier := [] |} in
  let st := {| last_message_id := 4; processed_codes := codes; output := evs |} in
  let asc := check_messages [m 5%Z t5; m 3%Z t3; m 8%Z t8] st in
  let desc := check_messages [m 8%Z t8; m 5%Z t5; m 3%Z t3] st in
  last_message_id asc = 8%Z
  /\ processed_ids (output asc) = processed_ids evs ++ [5%Z; 8%Z]
  /\ last_message_id desc = 8%Z
  /\ processed_ids (output desc) = processed_ids evs ++ [8%Z].
Proof.
  intros m st asc desc. subst asc desc. simpl check_messages.
  assert (W5 : last_message_id (check_message (m 5%Z t5) st) = 5%Z)
    by (apply check_message_new; simpl; lia).
  assert (W8 : last_message_id (check_message (m 8%Z t8) st) = 8%Z)
    by (apply check_message_new; simpl; lia).
  rewrite (check_message_skip (m 3%Z t3) (check_message (m 5%Z t5) st))
    by (rewrite W5; simpl; lia).
  rewrite (check_message_skip (m 5%Z t5) (check_message (m 8%Z t8) st))
    by (rewrite W8; simpl; lia).
  rewrite (check_message_skip (m 3%Z t3) (check_message (m 8%Z t8) st))
    by (rewrite W8; simpl; lia).
  split; [apply check_message_new; rewrite W5; simpl; lia|].
  split.
  - rewrite check_message_new_ids by (rewrite W5; simpl; lia).
    rewrite check_message_new_ids by (simpl; lia).
    rewrite <- app_assoc. reflexivity.
  - split; [exact W8|].
    rewrite check_message_new_ids by (simpl; lia). reflexivity.
Qed.

(** ** Rows without text *)

Section PollerFacts.
Context {py : Interp}.

Lemma message_of_row_id (r : row) (m : message) :
  message_of_row r = Some m -> message_id m = row_id r.
Proof.
  unfold message_of_row. destruct (resolve_text r) as [t|]; [|discriminate].
  destruct (truthy (Some t) && (0 <? length (strip t)))%bool; [|discriminate].
  intros H; injection H as <-. reflexivity.
Qed.

(** A row is dropped exactly when its text is missing, empty, or nothing but
    whitespace. *)
Lemma message_of_row_None (r : row) :
  message_of_row r = None
  <-> match resolve_text r with
      | Some t => strip t = []
      | None => True
      end.
Proof.
  unfold message_of_row. destruct (resolve_text r) as [t|]; simpl; [|tauto].
  destruct t as [|c t]; simpl; [tauto|].
  destruct (strip (c :: t)) as [|x u]; simpl.
  - tauto.
  - split; discriminate.
Qed.

Lemma lstrip_length (s : str) : length (lstrip s) <= length s.
Proof.
  induction s as [|c s IH]; simpl; [lia|].
  destruct (isspace c); simpl; lia.
Qed.

Lemma strip_length (s : str) : length (strip s) <= length s.
Proof.
  unfold strip. rewrite length_rev.
  etransitivity; [apply lstrip_length|]. rewrite length_rev.
  apply lstrip_length.
Qed.

Lemma collapse_spaces_length (in_run : bool) (s : str) :
  length (collapse_spaces in_run s) <= length s.
Proof.
  revert in_run; induction s as [|c s IH]; intros in_run; simpl; [lia|].
  pose proof (IH true) as Ht. pose proof (IH false) as Hf.
  destruct (isspace c); [destruct in_run|]; simpl; lia.
Qed.

Lemma clean_length (text : str) : length (clean text) <= length text.
Proof.
  unfold clean. etransitivity; [apply strip_length|].
  etransitivity; [apply collapse_spaces_length|]. apply filter_length_le.
Qed.

(** The decoding never fails: the second codec takes any bytes. *)
Lemma decode_total (b : list byte) : exists text, decode b = Some text.
Proof.
  unfold decode. destruct (decode_utf8_ignore b) as [t|]; eauto.
  unfold decode_latin1. eauto.
Qed.

End PollerFacts.

(** C9: the text recovered from a payload is the cleaned decoding when that
    has more than three characters, and nothing otherwise (nor for an empty
    or missing payload).  A payload that decodes to "hi" gives nothing, and a
    row with no text and that payload is dropped: nothing is extracted, the
    monitor and its output are unchanged. *)
Theorem payload_text_threshold {py : Interp} {os : System}
  (b : list byte) (text : str) :
  decode b = Some text ->
  extract_text_from_attributed_body (Some b)
  = match b with
    | [] => None
    | _ :: _ =>
        if 3 <? length (clean text) then Some (clean text) else None
    end
  /\ (forall t, extract_text_from_attributed_body (Some b) = Some t ->
                3 < length t)
  /\ extract_text_from_attributed_body None = None
  /\ (text = lit "hi" ->
      extract_text_from_attributed_body (Some b) = None
      /\ forall r st,
           truthy (row_text r) = false ->
           row_attributed_body r = Some b ->
           get_recent_messages (Rows [r]) = []
           /\ check_for_new_messages (Rows [r]) st = st).
Proof.
  intros Hd.
  assert (E : extract_text_from_attributed_body (Some b)
              = match b with
                | [] => None
                | _ :: _ =>
                    if 3 <? length (clean text) then Some (clean text) else None
                end).
  { unfold extract_text_from_attributed_body. destruct b; [reflexivity|].
    rewrite Hd. reflexivity. }
  split; [exact E|]. split; [|split; [reflexivity|]].
  - intros t. rewrite E. destruct b; [discriminate|].
    destruct (Nat.ltb_spec 3 (length (clean text))) as [Hlt|Hge]; [|discriminate].
    intros Ht; injection Ht as <-. exact Hlt.
  - intros ->.
    assert (E' : extract_text_from_attributed_body (Some b) = None).
    { rewrite E. destruct b; [reflexivity|].
      pose proof (clean_length (lit "hi")) as Hl. simpl length in Hl at 2.
      destruct (Nat.ltb_spec 3 (length (clean (lit "hi")))); [lia | reflexivity]. }
    split; [exact E'|]. intros r st Ht Hb.
    assert (Em : message_of_row r = None).
    { apply message_of_row_None. unfold resolve_text. rewrite Ht, Hb.
      cbn [negb andb]. destruct (truthy (Some b)).
      - rewrite E'. exact I.
      - destruct (row_text r) as [[|c t]|]; simpl in *;
          try discriminate; auto. }
    unfold check_for_new_messages. simpl. rewrite Em. auto.
Qed.

Lemma payload_text_threshold_witness :
  extract_text_from_attributed_body (py := ascii_interp) (Some [x68; x69]) = None
  /\ get_recent_messages (py := ascii_interp) (Rows [hi_row]) = []
  /\ check_for_new_messages (py := ascii_interp) (os := working_clipboard)
       (Rows [hi_row]) at_watermark_4 = at_watermark_4.
Proof.
  destruct (@payload_text_threshold ascii_interp working_clipboard
              [x68; x69] (lit "hi") eq_refl) as (_ & _ & _ & H).
  destruct (H eq_refl) as (H1 & H2).
  split; [exact H1|]. apply (H2 hi_row at_watermark_4); reflexivity.
Defined.

(** C2, as the code has it: a row for which no usable text resolves is
    dropped before the loop over the batch, so the batch runs as if the row
    were not in it and the watermark is not moved for it; a row that is kept
    and whose identifier exceeds the watermark reached when the loop comes to
    it moves the watermark to its identifier. *)
Theorem textless_message_dropped {py : Interp} {os : System}
  (rows1 rows2 : list row) (r : row) (st : monitor) :
  (message_of_row r = None ->
   check_for_new_messages (Rows (rows1 ++ r :: rows2)) st
   = check_for_new_messages (Rows (rows1 ++ rows2)) st)
  /\ (forall m, message_of_row r = Some m ->
      let st1 := check_for_new_messages (Rows rows1) st in
      (last_message_id st1 < row_id r)%Z ->
      check_for_new_messages (Rows (rows1 ++ r :: rows2)) st
      = check_for_new_messages (Rows rows2) (check_message m st1)
      /\ last_message_id (check_message m st1) = row_id r).
Proof.
  split.
  - intros Hr. rewrite !check_for_new_messages_eq. simpl.
    rewrite !messages_of_rows_app. simpl. rewrite Hr. reflexivity.
  - intros m Hm st1 Hlt. subst st1. rewrite !check_for_new_messages_eq in *.
    simpl in *. rewrite messages_of_rows_app. simpl. rewrite Hm.
    rewrite check_messages_app. simpl. split; [reflexivity|].
    rewrite <- (message_of_row_id _ Hm) in *.
    apply check_message_new. exact Hlt.
Qed.

Lemma textless_message_dropped_witness :
  check_for_new_messages (py := ascii_interp) (os := working_clipboard)
    (Rows ([code_row] ++ textless_row :: [])) at_watermark_4
  = check_for_new_messages (py := ascii_interp) (os := working_clipboard)
      (Rows ([code_row] ++ [])) at_watermark_4
  /\ last_message_id
       (check_message (py := ascii_interp) (os := working_clipboard)
          {| message_id := 9;
             message_text := lit "Your code is 482913, expires in 10 min";
             message_date := 0; message_chat_id := 1;
             message_chat_identifier := lit "+15550100" |}
          (check_for_new_messages (py := ascii_interp) (os := working_clipboard)
             (Rows []) at_watermark_4))
     = row_id code_row.
Proof.
  split.
  - apply (proj1 (@textless_message_dropped ascii_interp working_clipboard
                    [code_row] [] textless_row at_watermark_4)).
    reflexivity.
  - apply (proj2 (@textless_message_dropped ascii_interp working_clipboard
                    [] [] code_row at_watermark_4)).
    + reflexivity.
    + vm_compute. reflexivity.
Defined.

(** C2 as stated fails: the row 7 resolves to no text and exceeds the
    watermark 4, and the watermark stays at 4. *)
Lemma textless_message_keeps_watermark :
  resolve_text (py := ascii_interp) textless_row = None
  /\ (last_message_id at_watermark_4 < row_id textless_row)%Z
  /\ last_message_id
       (check_for_new_messages (py := ascii_interp) (os := working_clipboard)
          (Rows [textless_row]) at_watermark_4) = 4%Z
  /\ last_message_id
       (check_for_new_messages (py := ascii_interp) (os := working_clipboard)
          (Rows [textless_row]) at_watermark_4) <> row_id textless_row.
Proof. vm_compute. repeat split; try reflexivity. discriminate. Qed.

(** C3, as the code has it: for a message whose extracted code is new, the
    code is appended to the list, announced and returned when the copy to the
    clipboard succeeds; when the copy fails the list is left as it was, no
    notification is requested and nothing is returned. *)
Theorem new_code_recorded_if_copied {py : Interp} {os : System}
  (text : str) (id chat : Z) (st : monitor) (code : str) :
  extract_code text = Some code ->
  is_new code (processed_codes st) = true ->
  process_message text id chat st
  = if pbcopy (output st ++ [Processing id]) code then
      (Some code,
       {| last_message_id := last_message_id st;
          processed_codes := add_processed_code code (processed_codes st);
          output := ((output st ++ [Processing id]) ++ [Pbcopy code true])
                    ++ [Notification detected_title
                          (lit "Code copied to clipboard: " ++ code) true] |})
    else
      (None,
       {| last_message_id := last_message_id st;
          processed_codes := processed_codes st;
          output := (output st ++ [Processing id]) ++ [Pbcopy code false] |}).
Proof.
  intros He Hn. rewrite process_message_eq, He, Hn. reflexivity.
Qed.

Lemma new_code_recorded_if_copied_witness :
  process_message (py := ascii_interp) (os := working_clipboard)
    (lit "Your code is 482913, expires in 10 min") 9 1 at_watermark_4
  = (Some (lit "482913"),
     {| last_message_id := 4;
        processed_codes := add_processed_code (lit "482913") [];
        output := (([] ++ [Processing 9]) ++ [Pbcopy (lit "482913") true])
                  ++ [Notification detected_title
                        (lit "Code copied to clipboard: " ++ lit "482913") true] |}).
Proof.
  apply (@new_code_recorded_if_copied ascii_interp working_clipboard
           (lit "Your code is 482913, expires in 10 min") 9 1 at_watermark_4
           (lit "482913")).
  - vm_compute. reflexivity.
  - vm_compute. reflexivity.
Defined.

(** C3 as stated fails: with a [pbcopy] that fails, the new code 482913 is
    extracted but not appended, nothing is returned, and the code is still
    new afterwards. *)
Lemma failed_copy_drops_code :
  extract_code (py := ascii_interp) (lit "Your code is 482913, expires in 10 min")
  = Some (lit "482913")
  /\ is_new (lit "482913") (processed_codes at_watermark_4) = true
  /\ process_message (py := ascii_interp) (os := failing_clipboard)
       (lit "Your code is 482913, expires in 10 min") 9 1 at_watermark_4
     = (None,
        {| last_message_id := 4;
           processed_codes := [];
           output := [Processing 9; Pbcopy (lit "482913") false] |}).
Proof. vm_compute. repeat split; reflexivity. Qed.

(** ** The scenarios of the specification, evaluated *)

(** A message with a code: the code is copied, announced and remembered. *)
Example scenario_code_emitted :
  let st := check_for_new_messages (py := ascii_interp) (os := working_clipboard)
              (Rows [code_row]) init in
  emitted_codes (output st) = [lit "482913"]
  /\ processed_codes st = [lit "482913"]
  /\ last_message_id st = 9%Z.
Proof. vm_compute. repeat split; reflexivity. Qed.

(** The same code in a later message is a duplicate: nothing is copied. *)
Example scenario_duplicate_suppressed :
  let again :=
    {| row_id := 12; row_text := Some (lit "482913 is your code");
       row_attributed_body := None; row_date := 5; row_chat_id := 1;
       row_chat_identifier := lit "+15550100" |} in
  let st := polling (py := ascii_interp) (os := working_clipboard)
              [Rows [code_row]; Rows [again]] init in
  emitted_codes (output st) = [lit "482913"]
  /\ processed_ids (output st) = [9%Z; 12%Z].
Proof. vm_compute. repeat split; reflexivity. Qed.

(** The eleventh distinct code pushes the first one out: the first one is
    new again. *)
Example scenario_eviction :
  let codes := map lit ["0001"; "0002"; "0003"; "0004"; "0005"; "0006";
                        "0007"; "0008"; "0009"; "0010"]%string in
  let h := fold_left (fun h x => remember x h) codes
             (add_processed_code (lit "482913") []) in
  length h = 10 /\ is_new (lit "482913") h = true.
Proof. vm_compute. repeat split; reflexivity. Qed.

(** Two messages with codes arrive between two polls; the store answers
    newest first.  The code of message 8 is copied, message 5 is skipped and
    its code is never seen, in this poll or the next. *)
Example scenario_newest_first :
  let row8 :=
    {| row_id := 8; row_text := Some (lit "Your code is 111111");
       row_attributed_body := None; row_date := 20; row_chat_id := 1;
       row_chat_identifier := lit "+15550100" |} in
  let row5 :=
    {| row_id := 5; row_text := Some (lit "Your code is 222222");
       row_attributed_body := None; row_date := 10; row_chat_id := 2;
       row_chat_identifier := lit "+15550111" |} in
  let st := polling (py := ascii_interp) (os := working_clipboard)
              [Rows [row8; row5]; Rows []] at_watermark_4 in
  processed_ids (output st) = [8%Z]
  /\ emitted_codes (output st) = [lit "111111"]
  /\ last_message_id st = 8%Z.
Proof. vm_compute. repeat split; reflexivity. Qed.

(** * Further properties of the code *)

(** ** What [extract_code] returns *)

Section ExtractFacts.
Context {py : Interp}.

Lemma rule_of_patterns (name : string) (r : regex) :
  In (name, r) patterns ->
  exists cs n, r = [WordBoundary; Repeat cs n; WordBoundary] /\ (n = 6 \/ n = 4).
Proof.
  unfold patterns. simpl.
  intros [H | [H | [H | [H | []]]]]; injection H as <- <-;
    do 2 eexists; (split; [reflexivity | auto]).
Qed.

Lemma extract_code_run (text code : str) :
  extract_code text = Some code ->
  exists cs n i, (n = 6 \/ n = 4) /\ bounded_run cs n text i code.
Proof.
  unfold extract_code. rewrite first_match_Some.
  intros (before & name & r & after & i & E & _ & (Hm & _)).
  assert (Hin : In (name, r) patterns) by (rewrite E; apply in_elt).
  destruct (rule_of_patterns Hin) as (cs & n & -> & Hn).
  exists cs, n, i. split; [exact Hn|]. apply rule_match_at. exact Hm.
Qed.

Lemma bounded_run_split (cs : charset) (n : nat) (text : str) (i : nat) (m : str) :
  bounded_run cs n text i m ->
  text = firstn i text ++ m ++ skipn (i + n) text /\ length m = n.
Proof.
  intros (Hlen & -> & _). split.
  - rewrite Nat.add_comm, <- skipn_skipn, firstn_skipn, firstn_skipn.
    reflexivity.
  - rewrite length_firstn, length_skipn. lia.
Qed.

End ExtractFacts.

(** X1: a code that [extract_code] returns is a contiguous piece of the text
    and has six or four characters. *)
Theorem extract_code_substring {py : Interp} (text code : str) :
  extract_code text = Some code ->
  (length code = 6 \/ length code = 4)
  /\ exists pre post, text = pre ++ code ++ post.
Proof.
  intros H. destruct (@extract_code_run _ _ _ H) as (cs & n & i & Hn & Hb).
  destruct (@bounded_run_split _ _ _ _ _ _ Hb) as (E & Hl). split; [lia|].
  exists (firstn i text), (skipn (i + n) text). exact E.
Qed.

Lemma extract_code_substring_witness :
  (length (lit "482913") = 6 \/ length (lit "482913") = 4)
  /\ exists pre post,
       lit "Your code is 482913, expires in 10 min"
       = pre ++ lit "482913" ++ post.
Proof.
  apply (@extract_code_substring ascii_interp
           (lit "Your code is 482913, expires in 10 min") (lit "482913")).
  vm_compute. reflexivity.
Defined.

Lemma upper_digit_no_capital {py : Interp} (T : AsciiTables py) (m : str) :
  forallb (in_charset UpperDigit) m = true ->
  existsb is_upper m = false ->
  forallb (in_charset Digit) m = true.
Proof.
  induction m as [|c m IH]; simpl; [reflexivity|].
  rewrite andb_true_iff, orb_false_iff. intros [Hc Hm] [Hu He].
  rewrite (IH Hm He), andb_true_r.
  unfold is_upper in Hu. rewrite Hu in Hc. simpl in Hc.
  apply andb_true_iff in Hc. destruct Hc as [H1 H2].
  apply N.leb_le in H1, H2.
  rewrite isdecimal_ascii by lia. unfold ascii_isdecimal.
  apply andb_true_iff. split; apply N.leb_le; assumption.
Qed.

(** X2: for an interpreter whose tables agree with ASCII below 128, a code
    that [extract_code] returns is either made of decimal digits only, or it
    is made of characters of [A-Z0-9] with at least one capital letter, and
    then the text holds no word-bounded run of six or of four digits. *)
Theorem extract_code_shape {py : Interp} (T : AsciiTables py) (text code : str) :
  extract_code text = Some code ->
  forallb isdecimal code = true
  \/ (forallb (in_charset UpperDigit) code = true
      /\ existsb is_upper code = true
      /\ no_match six_digit text
      /\ no_match four_digit text).
Proof.
  unfold extract_code. rewrite first_match_Some.
  intros (before & name & r & after & i & E & Hb & (Hm & _)).
  assert (H6 : forall n, (n = 6 \/ n = 4) ->
             bounded_run UpperDigit n text i code ->
             no_match [WordBoundary; Repeat Digit n; WordBoundary] text ->
             existsb is_upper code = true).
  { intros n _ (Hlen & Em & Hf & Hb1 & Hb2) Hno.
    destruct (existsb is_upper code) eqn:Eu; [reflexivity|]. exfalso.
    apply (Hno i code). apply rule_match_at.
    repeat split; try assumption.
    apply upper_digit_no_capital; assumption. }
  unfold patterns in E.
  destruct before as [|p1 before]; simpl in E.
  { injection E as <- <- _. left. apply rule_match_at in Hm.
    exact (proj1 (proj2 (proj2 Hm))). }
  injection E as <- E.
  assert (N6 : no_match six_digit text)
    by (apply (Hb "6-digit"%string); simpl; auto).
  destruct before as [|p2 before]; simpl in E.
  { injection E as <- <- _. left. apply rule_match_at in Hm.
    exact (proj1 (proj2 (proj2 Hm))). }
  injection E as <- E.
  assert (N4 : no_match four_digit text)
    by (apply (Hb "4-digit"%string); simpl; auto).
  destruct before as [|p3 before]; simpl in E.
  { injection E as <- <- _. right. apply rule_match_at in Hm.
    split; [exact (proj1 (proj2 (proj2 Hm)))|].
    split; [apply (H6 6); auto | auto]. }
  injection E as <- E.
  destruct before as [|p4 before]; simpl in E.
  { injection E as <- <- _. right. apply rule_match_at in Hm.
    split; [exact (proj1 (proj2 (proj2 Hm)))|].
    split; [apply (H6 4); auto | auto]. }
  injection E as _ E. destruct before; discriminate.
Qed.

Lemma extract_code_shape_witness :
  forallb (isdecimal (Interp := ascii_interp)) (lit "G7X2Q9") = true
  \/ (forallb (in_charset (py := ascii_interp) UpperDigit) (lit "G7X2Q9") = true
      /\ existsb is_upper (lit "G7X2Q9") = true
      /\ no_match (py := ascii_interp) six_digit (lit "Use G7X2Q9 to sign in")
      /\ no_match (py := ascii_interp) four_digit (lit "Use G7X2Q9 to sign in")).
Proof.
  apply (@extract_code_shape ascii_interp).
  - split; intros c Hc; simpl; apply N.ltb_lt in Hc; rewrite Hc; reflexivity.
  - vm_compute. reflexivity.
Defined.

(** X3: a text in which no character is a decimal digit or a character of
    [A-Z0-9] holds no code; in particular codes in small letters are not
    seen. *)
Theorem extract_code_needs_digit_or_capital {py : Interp} (text : str) :
  forallb (fun c => negb (isdecimal c) && negb (in_charset UpperDigit c)) text
  = true ->
  extract_code text = None.
Proof.
  intros Hall. destruct (extract_code text) as [code|] eqn:E; [|reflexivity].
  exfalso. destruct (@extract_code_run _ _ _ E) as (cs & n & i & Hn & Hb).
  destruct (@bounded_run_split _ _ _ _ _ _ Hb) as (Et & Hl).
  destruct Hb as (_ & _ & Hf & _).
  destruct code as [|c code]; [simpl in Hl; lia|].
  simpl in Hf. apply andb_true_iff in Hf. destruct Hf as [Hc _].
  rewrite forallb_forall in Hall.
  assert (Hin : In c text).
  { rewrite Et. apply in_or_app. right. simpl. auto. }
  specialize (Hall c Hin). apply andb_true_iff in Hall.
  destruct Hall as [H1 H2]. apply negb_true_iff in H1, H2.
  destruct cs; simpl in Hc, H2; congruence.
Qed.

Lemma extract_code_needs_digit_or_capital_witness :
  extract_code (py := ascii_interp) (lit "your code is abcdef") = None.
Proof.
  apply (@extract_code_needs_digit_or_capital ascii_interp).
  vm_compute. reflexivity.
Defined.

Lemma class_is_word {py : Interp} (T : AsciiTables py)
  (Hd : forall c, isdecimal c = true -> isalnum c = true)
  (cs : charset) (c : N) :
  in_charset cs c = true -> is_word c = true.
Proof.
  unfold is_word. destruct cs; simpl; intros H.
  - rewrite (Hd c H). reflexivity.
  - assert (Hlt : (c < 128)%N).
    { apply orb_true_iff in H.
      destruct H as [H|H]; apply andb_true_iff in H; destruct H as [_ H];
        apply N.leb_le in H; lia. }
    rewrite isalnum_ascii by exact Hlt. unfold ascii_isalnum, ascii_isdecimal.
    apply orb_true_iff in H. destruct H as [H|H]; rewrite H; simpl;
      rewrite ?orb_true_r; reflexivity.
Qed.

(** X4: for an interpreter whose tables agree with ASCII below 128 and for
    which decimal digits are alphanumeric, the code that [extract_code]
    returns stands in the text between characters that are not word
    characters (or at an end of the text). *)
Theorem extract_code_delimited {py : Interp} (T : AsciiTables py)
  (Hd : forall c, isdecimal c = true -> isalnum c = true) (text code : str) :
  extract_code text = Some code ->
  exists pre post,
    text = pre ++ code ++ post
    /\ word_opt (last_char pre None) = false
    /\ word_opt (hd_error post) = false.
Proof.
  intros E. destruct (@extract_code_run _ _ _ E) as (cs & n & i & Hn & Hb).
  destruct (@bounded_run_split _ _ _ _ _ _ Hb) as (Et & Hl).
  destruct Hb as (Hlen & Em & Hf & Hb1 & Hb2).
  exists (firstn i text), (skipn (i + n) text). split; [exact Et|].
  assert (Es : skipn i text = code ++ skipn (i + n) text).
  { rewrite Em, Nat.add_comm, <- skipn_skipn. symmetry. apply firstn_skipn. }
  rewrite forallb_forall in Hf.
  assert (Hpre : last_char (firstn i text) None = prev_char None text i).
  { pose proof (@last_char_prev_char text 0 (firstn i text) (skipn i text)) as Hp.
    simpl in Hp. rewrite Hp; [|symmetry; apply firstn_skipn | lia].
    rewrite length_firstn. f_equal. lia. }
  split.
  - rewrite Hpre. unfold at_boundary in Hb1. rewrite Es in Hb1.
    destruct code as [|c code]; [simpl in Hl; lia|]. simpl in Hb1.
    rewrite (class_is_word T Hd cs c) in Hb1 by (apply Hf; simpl; auto).
    destruct (word_opt (prev_char None text i)); [discriminate | reflexivity].
  - rewrite <- Hl in Hb2.
    rewrite <- (last_char_prev_char _ _ _ Es) in Hb2 by lia.
    unfold at_boundary, last_char in Hb2.
    destruct (rev code) as [|c rc] eqn:Er.
    + apply (f_equal (@length N)) in Er. rewrite length_rev in Er.
      simpl in Er. lia.
    + simpl in Hb2. rewrite (class_is_word T Hd cs c) in Hb2.
      * rewrite Hl in Hb2.
        destruct (word_opt (hd_error (skipn (i + n) text)));
          [discriminate | reflexivity].
      * apply Hf. apply in_rev. rewrite Er. simpl. auto.
Qed.

Lemma extract_code_delimited_witness :
  exists pre post,
    lit "Your code is 482913, expires in 10 min" = pre ++ lit "482913" ++ post
    /\ word_opt (py := ascii_interp) (last_char pre None) = false
    /\ word_opt (py := ascii_interp) (hd_error post) = false.
Proof.
  apply (@extract_code_delimited ascii_interp).
  - split; intros c Hc; simpl; apply N.ltb_lt in Hc; rewrite Hc; reflexivity.
  - intros c. simpl. unfold ascii_isalnum.
    destruct (c <? 128)%N; simpl; [|discriminate].
    intros ->. reflexivity.
  - vm_compute. reflexivity.
Defined.

(** ** The text recovered from a payload *)

Section CleanFacts.
Context {py : Interp}.

Lemma lstrip_split (s : str) :
  exists a, s = a ++ lstrip s /\ forallb isspace a = true.
Proof.
  induction s as [|c s (a & E & Ha)]; simpl.
  - exists []. auto.
  - destruct (isspace c) eqn:Ec.
    + exists (c :: a). simpl. rewrite Ec, Ha. split; [f_equal; exact E | reflexivity].
    + exists []. auto.
Qed.

Lemma lstrip_head (s : str) (c : N) (u : str) :
  lstrip s = c :: u -> isspace c = false.
Proof.
  induction s as [|x s IH]; simpl; [discriminate|].
  destruct (isspace x) eqn:Ex; [exact IH|].
  intros H; injection H as <- _. exact Ex.
Qed.

Lemma lstrip_id (s : str) :
  (forall c u, s = c :: u -> isspace c = false) -> lstrip s = s.
Proof.
  destruct s as [|c s]; simpl; [reflexivity|].
  intros H. rewrite (H c s eq_refl). reflexivity.
Qed.

Lemma forallb_rev (f : N -> bool) (l : str) :
  forallb f l = true -> forallb f (rev l) = true.
Proof.
  rewrite !forallb_forall. intros H x Hx. apply H. apply in_rev. exact Hx.
Qed.

(** [strip] cuts whitespace off both ends and nothing else. *)
Lemma strip_split (s : str) :
  exists a b, s = a ++ strip s ++ b
              /\ forallb isspace a = true /\ forallb isspace b = true.
Proof.
  destruct (lstrip_split s) as (a & Ea & Ha).
  destruct (lstrip_split (rev (lstrip s))) as (b & Eb & Hb).
  exists a, (rev b). split; [|split; [exact Ha | apply forallb_rev; exact Hb]].
  unfold strip. rewrite <- rev_app_distr, <- Eb, rev_involutive. exact Ea.
Qed.

Lemma strip_first (s : str) (c : N) (u : str) :
  strip s = c :: u -> isspace c = false.
Proof.
  intros H. destruct (lstrip_split (rev (lstrip s))) as (b & Eb & _).
  apply (f_equal (@rev N)) in Eb. rewrite rev_involutive, rev_app_distr in Eb.
  fold (strip s) in Eb. rewrite H in Eb. simpl in Eb.
  exact (lstrip_head s Eb).
Qed.

Lemma strip_last (s : str) (u : str) (c : N) :
  strip s = u ++ [c] -> isspace c = false.
Proof.
  unfold strip. intros H. apply (f_equal (@rev N)) in H.
  rewrite rev_involutive, rev_app_distr in H. simpl in H.
  exact (lstrip_head _ H).
Qed.

Lemma strip_id (s : str) :
  (forall c u, s = c :: u -> isspace c = false) ->
  (forall u c, s = u ++ [c] -> isspace c = false) ->
  strip s = s.
Proof.
  intros Hf Hl. unfold strip. rewrite (lstrip_id Hf).
  rewrite lstrip_id; [apply rev_involutive|].
  intros c u E. apply (Hl (rev u) c).
  apply (f_equal (@rev N)) in E. rewrite rev_involutive in E. exact E.
Qed.

Lemma collapse_spaces_In (in_run : bool) (s : str) (c : N) :
  In c (collapse_spaces in_run s) ->
  c = 32%N \/ (In c s /\ isspace c = false).
Proof.
  revert in_run; induction s as [|x s IH]; intros in_run; simpl; [tauto|].
  destruct (isspace x) eqn:Ex.
  - destruct in_run; simpl.
    + intros H. destruct (IH _ H) as [-> | [Hin Hs]]; auto.
    + intros [<- | H]; [auto|]. destruct (IH _ H) as [-> | [Hin Hs]]; auto.
  - simpl. intros [<- | H]; [auto|].
    destruct (IH _ H) as [-> | [Hin Hs]]; auto.
Qed.

Lemma collapse_spaces_single (in_run : bool) (s : str) :
  isspace 32%N = true -> single_spaced in_run (collapse_spaces in_run s) = true.
Proof.
  intros H32. revert in_run; induction s as [|x s IH]; intros in_run; simpl;
    [reflexivity|].
  destruct (isspace x) eqn:Ex.
  - destruct in_run; [apply IH|]. simpl. rewrite H32. simpl. apply IH.
  - simpl. rewrite Ex. apply IH.
Qed.

Lemma collapse_spaces_id (in_run : bool) (s : str) :
  single_spaced in_run s = true -> collapse_spaces in_run s = s.
Proof.
  revert in_run; induction s as [|x s IH]; intros in_run; simpl; [reflexivity|].
  destruct (isspace x).
  - rewrite !andb_true_iff, negb_true_iff, N.eqb_eq.
    intros [[-> ->] H]. rewrite (IH true H). reflexivity.
  - intros H. rewrite (IH false H). reflexivity.
Qed.

Lemma single_spaced_weaken (b : bool) (s : str) :
  single_spaced b s = true -> single_spaced false s = true.
Proof.
  destruct s as [|c s]; simpl; [reflexivity|].
  destruct (isspace c); [|tauto].
  destruct b; simpl; [discriminate | tauto].
Qed.

Lemma single_spaced_app (b : bool) (s1 s2 : str) :
  single_spaced b (s1 ++ s2) = true ->
  single_spaced b s1 = true /\ single_spaced false s2 = true.
Proof.
  revert b; induction s1 as [|c s1 IH]; intros b; simpl.
  - intros H. split; [reflexivity | exact (single_spaced_weaken _ _ H)].
  - destruct (isspace c).
    + rewrite !andb_true_iff. intros [Hc H].
      destruct (IH true H) as [H1 H2]. auto.
    + apply IH.
Qed.

Lemma strip_single_spaced (s : str) :
  single_spaced false s = true -> single_spaced false (strip s) = true.
Proof.
  destruct (strip_split s) as (a & b & E & _). intros H.
  rewrite E in H. apply single_spaced_app in H. destruct H as [_ H].
  apply single_spaced_app in H. tauto.
Qed.

Lemma clean_In (text : str) (c : N) :
  In c (clean text) ->
  c = 32%N \/ (In c text /\ readable c = true /\ isspace c = false).
Proof.
  unfold clean. intros H.
  destruct (strip_split (collapse_spaces false (filter readable text)))
    as (a & b & E & _).
  assert (Hin : In c (collapse_spaces false (filter readable text))).
  { rewrite E. apply in_or_app. right. apply in_or_app. left. exact H. }
  apply collapse_spaces_In in Hin. destruct Hin as [-> | [Hin Hs]]; [auto|].
  apply filter_In in Hin. tauto.
Qed.

Lemma extract_text_clean (b : list byte) (t : str) :
  extract_text_from_attributed_body (Some b) = Some t ->
  exists text, decode b = Some text /\ t = clean text.
Proof.
  unfold extract_text_from_attributed_body. destruct b; [discriminate|].
  destruct (decode (b :: b0)) as [text|]; [|discriminate].
  destruct (3 <? length (clean text)); [|discriminate].
  intros H; injection H as <-. eauto.
Qed.

End CleanFacts.

(** X5: the text recovered from a payload holds no control character (no
    code point below 32), and every character of it other than a space is a
    printable or whitespace character of the decoded payload. *)
Theorem payload_text_characters {py : Interp} (b : list byte) (t : str) :
  extract_text_from_attributed_body (Some b) = Some t ->
  exists text,
    decode b = Some text
    /\ forall c, In c t ->
         (32 <= c)%N
         /\ (c = 32%N \/ (In c text /\ (isprintable c || isspace c) = true)).
Proof.
  intros H. destruct (extract_text_clean _ H) as (text & Hd & ->).
  exists text. split; [exact Hd|]. intros c Hc.
  destruct (clean_In _ _ Hc) as [-> | (Hin & Hr & _)].
  - split; [lia | auto].
  - unfold readable in Hr. apply andb_true_iff in Hr. destruct Hr as [Hp Hge].
    apply N.leb_le in Hge. auto.
Qed.

Lemma payload_text_characters_witness :
  exists text,
    decode (py := ascii_interp) [x31; x32; x33; x34; x20; x35] = Some text
    /\ forall c, In c (lit "1234 5") ->
         (32 <= c)%N
         /\ (c = 32%N
             \/ (In c text
                 /\ (isprintable (Interp := ascii_interp) c
                     || isspace (Interp := ascii_interp) c) = true)).
Proof.
  apply (@payload_text_characters ascii_interp [x31; x32; x33; x34; x20; x35]).
  vm_compute. reflexivity.
Defined.

(** X6: the text recovered from a payload neither starts nor ends with a
    whitespace character. *)
Theorem payload_text_trimmed {py : Interp} (b : list byte) (t : str) :
  extract_text_from_attributed_body (Some b) = Some t ->
  (forall c u, t = c :: u -> isspace c = false)
  /\ (forall u c, t = u ++ [c] -> isspace c = false).
Proof.
  intros H. destruct (extract_text_clean _ H) as (text & _ & ->).
  unfold clean. split.
  - intros c u E. exact (@strip_first _ _ _ _ E).
  - intros u c E. exact (@strip_last _ _ _ _ E).
Qed.

Lemma payload_text_trimmed_witness :
  (forall c u, lit "1234 5" = c :: u -> isspace (Interp := ascii_interp) c = false)
  /\ (forall u c, lit "1234 5" = u ++ [c] ->
                  isspace (Interp := ascii_interp) c = false).
Proof.
  apply (@payload_text_trimmed ascii_interp
           [x20; x31; x32; x33; x34; x20; x20; x35; x20]).
  vm_compute. reflexivity.
Defined.

(** X7: when the space is a whitespace character for the interpreter, the
    text recovered from a payload has no two whitespace characters in a row,
    and its only whitespace characters are spaces. *)
Theorem payload_text_single_spaced {py : Interp} (b : list byte) (t : str) :
  isspace 32%N = true ->
  extract_text_from_attributed_body (Some b) = Some t ->
  single_spaced false t = true.
Proof.
  intros H32 H. destruct (extract_text_clean _ H) as (text & _ & ->).
  unfold clean. apply strip_single_spaced. apply collapse_spaces_single.
  exact H32.
Qed.

Lemma payload_text_single_spaced_witness :
  single_spaced (py := ascii_interp) false (lit "1234 5") = true.
Proof.
  apply (@payload_text_single_spaced ascii_interp
           [x20; x31; x32; x33; x34; x20; x20; x35; x20]).
  - reflexivity.
  - vm_compute. reflexivity.
Defined.

(** X8: when the space is a whitespace character for the interpreter,
    cleaning a cleaned text changes nothing. *)
Theorem clean_idempotent {py : Interp} (text : str) :
  isspace 32%N = true -> clean (clean text) = clean text.
Proof.
  intros H32.
  assert (Hf : filter readable (clean text) = clean text).
  { apply forallb_filter_id. apply forallb_forall. intros c Hc.
    destruct (clean_In _ _ Hc) as [-> | (_ & Hr & _)]; [|exact Hr].
    unfold readable. rewrite H32, orb_true_r. reflexivity. }
  assert (Hs : single_spaced false (clean text) = true).
  { unfold clean. apply strip_single_spaced. apply collapse_spaces_single.
    exact H32. }
  unfold clean at 1. rewrite Hf, (collapse_spaces_id _ _ Hs).
  apply strip_id; unfold clean.
  - intros c u E. exact (@strip_first _ _ _ _ E).
  - intros u c E. exact (@strip_last _ _ _ _ E).
Qed.

Lemma clean_idempotent_witness :
  clean (py := ascii_interp) (clean (py := ascii_interp) (lit "  a   b c  "))
  = clean (py := ascii_interp) (lit "  a   b c  ").
Proof. apply (@clean_idempotent ascii_interp). reflexivity. Defined.

(** X9: a character below 32, a tab or a newline for instance, is removed
    from the decoded text without leaving a space: the words on either side
    are joined. *)
Theorem clean_drops_control {py : Interp} (a b : str) (c : N) :
  (c < 32)%N -> clean (a ++ c :: b) = clean (a ++ b).
Proof.
  intros Hc. unfold clean. rewrite !filter_app. simpl.
  unfold readable at 2. destruct (N.leb_spec 32 c) as [Hge|_]; [lia|].
  rewrite andb_false_r. reflexivity.
Qed.

Lemma clean_drops_control_witness :
  clean (py := ascii_interp) (lit "code" ++ 10%N :: lit "123456")
  = clean (py := ascii_interp) (lit "code" ++ lit "123456").
Proof. apply (@clean_drops_control ascii_interp). reflexivity. Defined.

(** A code on a line of its own after a word: the newline is dropped, the
    code is glued to the word and no rule matches. *)
Example newline_joins_words :
  let payload := [x63; x6f; x64; x65; x0a; x31; x32; x33; x34; x35; x36] in
  extract_text_from_attributed_body (py := ascii_interp) (Some payload)
  = Some (lit "code123456")
  /\ extract_code (py := ascii_interp) (lit "code123456") = None.
Proof. vm_compute. split; reflexivity. Qed.

(** ** The messages kept from the rows *)

(** X10: the messages [get_recent_messages] returns are those of the kept
    rows, in the order of the rows and with their identifiers, and the text
    of each holds a character that is not whitespace. *)
Theorem get_recent_messages_kept {py : Interp} (rows : list row) :
  map message_id (get_recent_messages (Rows rows))
  = map row_id (filter kept rows)
  /\ Forall (fun m => strip (message_text m) <> [])
       (get_recent_messages (Rows rows)).
Proof.
  simpl. induction rows as [|r rows [IH1 IH2]]; simpl.
  - split; constructor.
  - unfold kept at 1. destruct (message_of_row r) as [m|] eqn:E; [|auto].
    simpl. split.
    + rewrite IH1, (message_of_row_id _ E). reflexivity.
    + constructor; [|exact IH2].
      unfold message_of_row in E. destruct (resolve_text r) as [t|]; [|discriminate].
      destruct (truthy (Some t) && (0 <? length (strip t)))%bool eqn:Et;
        [|discriminate].
      injection E as <-. simpl. apply andb_true_iff in Et.
      destruct Et as [_ Et]. apply Nat.ltb_lt in Et.
      intros Hs. rewrite Hs in Et. simpl in Et. lia.
Qed.

(** X11: a row whose text field is not empty is judged by that field alone,
    the payload is not looked at: if the text is nothing but whitespace the
    row is dropped, whatever the payload holds; otherwise the message
    carries the text field unchanged. *)
Theorem text_field_hides_payload {py : Interp} (r : row) (t : str) :
  row_text r = Some t -> t <> [] ->
  resolve_text r = Some t
  /\ (strip t = [] -> message_of_row r = None)
  /\ (strip t <> [] ->
      exists m, message_of_row r = Some m
                /\ message_text m = t /\ message_id m = row_id r).
Proof.
  intros Hr Ht.
  assert (E : resolve_text r = Some t).
  { unfold resolve_text. rewrite Hr. destruct t; [contradiction | reflexivity]. }
  split; [exact E|]. unfold message_of_row. rewrite E. split.
  - intros Hs. rewrite Hs. simpl. rewrite andb_false_r. reflexivity.
  - intros Hs. destruct t as [|c t]; [contradiction|].
    destruct (strip (c :: t)) as [|x u] eqn:Es; [contradiction|].
    simpl. eexists. split; [reflexivity|]. split; reflexivity.
Qed.

Lemma text_field_hides_payload_witness :
  resolve_text (py := ascii_interp) blank_text_row = Some (lit "   ")
  /\ (strip (py := ascii_interp) (lit "   ") = [] ->
      message_of_row (py := ascii_interp) blank_text_row = None)
  /\ (strip (py := ascii_interp) (lit "   ") <> [] ->
      exists m, message_of_row (py := ascii_interp) blank_text_row = Some m
                /\ message_text m = lit "   "
                /\ message_id m = row_id blank_text_row).
Proof.
  apply (@text_field_hides_payload ascii_interp blank_text_row (lit "   ")).
  - reflexivity.
  - discriminate.
Defined.

(** The payload of that row alone would have given a text with a code. *)
Example blank_text_row_payload :
  extract_text_from_attributed_body (py := ascii_interp)
    (row_attributed_body blank_text_row) = Some (lit "Your code 123456")
  /\ get_recent_messages (py := ascii_interp) (Rows [blank_text_row]) = [].
Proof. vm_compute. split; reflexivity. Qed.

(** ** Batches and the watermark *)

Lemma fold_max_ge_init (l : list Z) (a : Z) : (a <= fold_left Z.max l a)%Z.
Proof.
  revert a; induction l as [|x l IH]; intros a; simpl; [lia|].
  specialize (IH (Z.max a x)). lia.
Qed.

Lemma fold_max_ge_In (l : list Z) (a x : Z) :
  In x l -> (x <= fold_left Z.max l a)%Z.
Proof.
  revert a; induction l as [|y l IH]; intros a; simpl; [tauto|].
  intros [-> | H]; [|apply IH; exact H].
  pose proof (fold_max_ge_init l (Z.max a x)). lia.
Qed.

Lemma fold_max_perm (l l' : list Z) (a : Z) :
  Permutation l l' -> fold_left Z.max l a = fold_left Z.max l' a.
Proof.
  intros H. revert a. induction H; intros a; simpl.
  - reflexivity.
  - apply IHPermutation.
  - f_equal. lia.
  - rewrite IHPermutation1. apply IHPermutation2.
Qed.

Section BatchFacts.
Context {py : Interp} {os : System}.

Lemma check_messages_skip_all (ms : list message) (st : monitor) :
  Forall (fun m => (message_id m <= last_message_id st)%Z) ms ->
  check_messages ms st = st.
Proof.
  induction 1 as [|m ms Hm _ IH]; simpl; [reflexivity|].
  rewrite check_message_skip by exact Hm. exact IH.
Qed.

Lemma check_message_watermark (m : message) (st : monitor) :
  last_message_id (check_message m st)
  = Z.max (last_message_id st) (message_id m).
Proof.
  destruct (Z.ltb_spec (last_message_id st) (message_id m)) as [Hlt|Hge].
  - destruct (check_message_new m st Hlt) as (Hw & _). rewrite Hw. lia.
  - rewrite check_message_skip by exact Hge. lia.
Qed.

End BatchFacts.

(** X12: after a poll the watermark is the largest of the watermark before
    it and the identifiers of the messages kept from the rows. *)
Theorem poll_watermark_max {py : Interp} {os : System}
  (q : query_result) (st : monitor) :
  last_message_id (check_for_new_messages q st)
  = fold_left Z.max (map message_id (get_recent_messages q)) (last_message_id st).
Proof.
  rewrite check_for_new_messages_eq.
  generalize (get_recent_messages q) as ms. intros ms. revert st.
  induction ms as [|m ms IH]; intros st; simpl; [reflexivity|].
  rewrite IH, check_message_watermark. reflexivity.
Qed.

(** X13: the watermark a batch leaves does not depend on the order of its
    messages. *)
Theorem batch_watermark_any_order {py : Interp} {os : System}
  (ms ms' : list message) (st : monitor) :
  Permutation ms ms' ->
  last_message_id (check_messages ms st) = last_message_id (check_messages ms' st).
Proof.
  intros H. rewrite !check_messages_watermark.
  apply fold_max_perm. apply Permutation_map. exact H.
Qed.

Lemma batch_watermark_any_order_witness :
  last_message_id
    (check_messages (py := ascii_interp) (os := working_clipboard)
       [message_with 5 (lit "a 111111"); message_with 8 (lit "b 222222")]
       at_watermark_4)
  = last_message_id
      (check_messages (py := ascii_interp) (os := working_clipboard)
         [message_with 8 (lit "b 222222"); message_with 5 (lit "a 111111")]
         at_watermark_4).
Proof.
  apply (@batch_watermark_any_order ascii_interp working_clipboard).
  apply perm_swap.
Defined.

(** X14: polling again with the same answer of the store changes nothing:
    every message of the batch is at or below the watermark the first poll
    left. *)
Theorem poll_twice_same {py : Interp} {os : System}
  (q : query_result) (st : monitor) :
  check_for_new_messages q (check_for_new_messages q st)
  = check_for_new_messages q st.
Proof.
  rewrite (check_for_new_messages_eq q (check_for_new_messages q st)).
  apply check_messages_skip_all. apply Forall_forall. intros m Hm.
  rewrite check_for_new_messages_eq, check_messages_watermark.
  apply fold_max_ge_In. apply in_map. exact Hm.
Qed.

(** X15: in a batch whose first message has the largest identifier, as in a
    batch delivered newest first, no message after the first is processed:
    the batch does what its first message alone does. *)
Theorem newest_first_processes_one {py : Interp} {os : System}
  (m : message) (ms : list message) (st : monitor) :
  Forall (fun m' => (message_id m' <= message_id m)%Z) ms ->
  check_messages (m :: ms) st = check_message m st.
Proof.
  intros H. simpl. apply check_messages_skip_all.
  eapply Forall_impl; [|exact H]. simpl. intros m' Hm'.
  rewrite check_message_watermark. lia.
Qed.

Lemma newest_first_processes_one_witness :
  check_messages (py := ascii_interp) (os := working_clipboard)
    (message_with 8 (lit "b 222222")
     :: [message_with 5 (lit "a 111111"); message_with 6 (lit "c 333333")])
    at_watermark_4
  = check_message (py := ascii_interp) (os := working_clipboard)
      (message_with 8 (lit "b 222222")) at_watermark_4.
Proof.
  apply (@newest_first_processes_one ascii_interp working_clipboard).
  repeat constructor; simpl; lia.
Defined.

(** X16: in a batch whose identifiers increase strictly and all exceed the
    watermark, as in a batch delivered oldest first, every message is
    processed, in the order of the batch. *)
Theorem oldest_first_processes_all {py : Interp} {os : System}
  (ms : list message) (st : monitor) :
  StronglySorted Z.lt (map message_id ms) ->
  Forall (fun m => (last_message_id st < message_id m)%Z) ms ->
  processed_ids (output (check_messages ms st))
  = processed_ids (output st) ++ map message_id ms.
Proof.
  revert st; induction ms as [|m ms IH]; intros st Hs Hf; simpl.
  - rewrite app_nil_r. reflexivity.
  - inversion Hs as [|x l Hs' Hx]; subst. inversion Hf as [|y l' Hm Hf']; subst.
    rewrite IH.
    + rewrite check_message_new_ids by exact Hm.
      rewrite <- app_assoc. reflexivity.
    + exact Hs'.
    + destruct (check_message_new m st Hm) as (Hw & _). rewrite Hw.
      rewrite Forall_map in Hx. exact Hx.
Qed.

Lemma oldest_first_processes_all_witness :
  processed_ids
    (output
       (check_messages (py := ascii_interp) (os := working_clipboard)
          [message_with 5 (lit "a 111111"); message_with 8 (lit "b 222222")]
          at_watermark_4))
  = processed_ids (output at_watermark_4)
    ++ map message_id
         [message_with 5 (lit "a 111111"); message_with 8 (lit "b 222222")].
Proof.
  apply (@oldest_first_processes_all ascii_interp working_clipboard).
  - repeat constructor; simpl; lia.
  - repeat constructor; simpl; lia.
Defined.

(** ** The processed codes and the clipboard *)

Lemma emitted_codes_app (a b : list event) :
  emitted_codes (a ++ b) = emitted_codes a ++ emitted_codes b.
Proof.
  induction a as [|e a IH]; simpl; [reflexivity|].
  destruct e as [id | t [|] | ti me so]; simpl; rewrite IH; reflexivity.
Qed.

Lemma last_n_snoc {A : Type} (n : nat) (l : list A) (c : A) :
  last_n n (last_n n l ++ [c]) = last_n n (l ++ [c]).
Proof.
  unfold last_n. rewrite !length_app, length_skipn. simpl length.
  destruct (Nat.le_gt_cases (length l) n) as [Hle|Hgt].
  - replace (length l - n) with 0 by lia. simpl skipn.
    replace (length l - 0) with (length l) by lia. reflexivity.
  - replace (length l - (length l - n) + 1 - n) with 1 by lia.
    replace (length l + 1 - n) with (1 + (length l - n)) by lia.
    rewrite !skipn_app, skipn_skipn, length_skipn.
    replace (1 + (length l - n) - length l) with (1 - (length l - (length l - n)))
      by lia.
    reflexivity.
Qed.

Lemma spaced_repeats_snoc (l : list str) (x : str) :
  spaced_repeats l -> ~ In x (last_n max_processed_codes l) ->
  spaced_repeats (l ++ [x]).
Proof.
  intros Hl Hx a c b d E.
  destruct d as [|y d] using rev_ind.
  - assert (E' : l ++ [x] = (a ++ c :: b) ++ [c])
      by (rewrite E, <- app_assoc; reflexivity).
    apply app_inj_tail in E'. destruct E' as [-> ->].
    destruct (Nat.le_gt_cases max_processed_codes (length b)) as [Hb|Hb];
      [exact Hb|].
    exfalso. apply Hx. unfold last_n. rewrite skipn_app.
    apply in_or_app. right. rewrite length_app. simpl length.
    replace (length a + S (length b) - max_processed_codes - length a) with 0
      by lia.
    simpl. auto.
  - clear IHd.
    assert (E' : l ++ [x] = (a ++ c :: b ++ c :: d) ++ [y]).
    { rewrite E, <- !app_assoc. simpl. rewrite <- !app_assoc. reflexivity. }
    apply app_inj_tail in E'. destruct E' as [-> _].
    exact (Hl a c b d eq_refl).
Qed.

Section CopyFacts.
Context {py : Interp} {os : System}.

Lemma process_message_tracks (text : str) (id chat : Z) (st : monitor) :
  tracks_copies st -> tracks_copies (snd (process_message text id chat st)).
Proof.
  intros [Hh Hs]. rewrite process_message_eq. unfold tracks_copies.
  destruct (extract_code text) as [code|].
  - destruct (is_new code (processed_codes st)) eqn:En.
    + destruct (pbcopy (output st ++ [Processing id]) code); cbn.
      * rewrite !emitted_codes_app. simpl. rewrite !app_nil_r. split.
        -- rewrite add_processed_code_eq, Hh. apply last_n_snoc.
        -- apply spaced_repeats_snoc; [exact Hs|].
           rewrite <- Hh. apply is_new_true. exact En.
      * rewrite !emitted_codes_app. simpl. rewrite !app_nil_r. auto.
    + cbn. rewrite emitted_codes_app. simpl. rewrite app_nil_r. auto.
  - cbn. rewrite emitted_codes_app. simpl. rewrite app_nil_r. auto.
Qed.

Lemma check_messages_tracks (ms : list message) (st : monitor) :
  tracks_copies st -> tracks_copies (check_messages ms st).
Proof.
  revert st; induction ms as [|m ms IH]; intros st H; simpl; [exact H|].
  apply IH. unfold check_message.
  destruct (last_message_id st <? message_id m)%Z; [|exact H].
  apply process_message_tracks. exact H.
Qed.

Lemma polling_tracks (polls : list query_result) (st : monitor) :
  tracks_copies st -> tracks_copies (polling polls st).
Proof.
  revert st; induction polls as [|q polls IH]; intros st H; simpl; [exact H|].
  apply IH. rewrite check_for_new_messages_eq. apply check_messages_tracks, H.
Qed.

Lemma init_tracks : tracks_copies init.
Proof.
  split; [reflexivity|]. intros a c b d E. simpl in E.
  destruct a; discriminate.
Qed.

Lemma run_tracks (db_exists : bool) (polls : list query_result) :
  tracks_copies (run db_exists polls init).
Proof.
  unfold run. destruct db_exists; [|apply init_tracks].
  assert (H : tracks_copies
                (polling polls
                   (show_notification (lit "2FA Monitor Active")
                      (lit "Monitoring for 2FA codes in Messages") true init))).
  { apply polling_tracks. apply init_tracks. }
  destruct H as [Hh Hs]. unfold tracks_copies, show_notification, emit. cbn.
  rewrite emitted_codes_app. simpl. rewrite app_nil_r. auto.
Qed.

End CopyFacts.

(** X17: at every point of a run of the monitor the list of processed codes
    is exactly the last ten codes that were copied to the clipboard, in the
    order of the copies (all of them while there are fewer than ten). *)
Theorem processed_codes_are_last_copies {py : Interp} {os : System}
  (db_exists : bool) (polls : list query_result) (ms : list message) :
  processed_codes (check_messages ms (polling polls init))
  = last_n 10 (emitted_codes (output (check_messages ms (polling polls init))))
  /\ processed_codes (run db_exists polls init)
     = last_n 10 (emitted_codes (output (run db_exists polls init))).
Proof.
  split.
  - apply (check_messages_tracks ms (polling_tracks polls init_tracks)).
  - apply (run_tracks db_exists polls).
Qed.

(** X18: along a run of the monitor a code is not copied to the clipboard
    again before at least ten other codes have been copied after it. *)
Theorem copies_of_a_code_are_spaced {py : Interp} {os : System}
  (db_exists : bool) (polls : list query_result) (ms : list message)
  (a b d : list str) (c : str) :
  (emitted_codes (output (check_messages ms (polling polls init)))
   = a ++ c :: b ++ c :: d -> 10 <= length b)
  /\ (emitted_codes (output (run db_exists polls init))
      = a ++ c :: b ++ c :: d -> 10 <= length b).
Proof.
  split.
  - apply (proj2 (check_messages_tracks ms (polling_tracks polls init_tracks))).
  - apply (proj2 (run_tracks db_exists polls)).
Qed.

Lemma copies_of_a_code_are_spaced_witness :
  10 <= length (map lit ["000002"; "000003"; "000004"; "000005"; "000006";
                         "000007"; "000008"; "000009"; "000010"; "000011"]%string).
Proof.
  apply (proj1 (@copies_of_a_code_are_spaced ascii_interp working_clipboard
                  true [] twelve_messages []
                  (map lit ["000002"; "000003"; "000004"; "000005"; "000006";
                            "000007"; "000008"; "000009"; "000010";
                            "000011"]%string)
                  [] (lit "000001"))).
  vm_compute. reflexivity.
Defined.

(** ** What does not depend on the clipboard *)

Section AnySystem.
Context {py : Interp}.
Variables os1 os2 : System.

Lemma check_message_any_system (m : message) (st1 st2 : monitor) :
  last_message_id st1 = last_message_id st2 ->
  processed_ids (output st1) = processed_ids (output st2) ->
  last_message_id (check_message (os := os1) m st1)
  = last_message_id (check_message (os := os2) m st2)
  /\ processed_ids (output (check_message (os := os1) m st1))
     = processed_ids (output (check_message (os := os2) m st2)).
Proof.
  intros Hw Hp. split.
  - rewrite !check_message_watermark, Hw. reflexivity.
  - destruct (Z.ltb_spec (last_message_id st1) (message_id m)) as [Hlt|Hge].
    + rewrite (check_message_new_ids (os := os1)) by exact Hlt.
      rewrite (check_message_new_ids (os := os2)) by (rewrite <- Hw; exact Hlt).
      rewrite Hp. reflexivity.
    + rewrite (check_message_skip (os := os1)) by exact Hge.
      rewrite (check_message_skip (os := os2)) by (rewrite <- Hw; exact Hge).
      exact Hp.
Qed.

Lemma check_messages_any_system (ms : list message) (st1 st2 : monitor) :
  last_message_id st1 = last_message_id st2 ->
  processed_ids (output st1) = processed_ids (output st2) ->
  last_message_id (check_messages (os := os1) ms st1)
  = last_message_id (check_messages (os := os2) ms st2)
  /\ processed_ids (output (check_messages (os := os1) ms st1))
     = processed_ids (output (check_messages (os := os2) ms st2)).
Proof.
  revert st1 st2; induction ms as [|m ms IH]; intros st1 st2 Hw Hp; simpl.
  - auto.
  - destruct (check_message_any_system m st1 st2 Hw Hp) as [Hw' Hp'].
    apply IH; assumption.
Qed.

Lemma polling_any_system (polls : list query_result) (st1 st2 : monitor) :
  last_message_id st1 = last_message_id st2 ->
  processed_ids (output st1) = processed_ids (output st2) ->
  last_message_id (polling (os := os1) polls st1)
  = last_message_id (polling (os := os2) polls st2)
  /\ processed_ids (output (polling (os := os1) polls st1))
     = processed_ids (output (polling (os := os2) polls st2)).
Proof.
  revert st1 st2; induction polls as [|q polls IH]; intros st1 st2 Hw Hp; simpl.
  - auto.
  - rewrite !check_for_new_messages_eq.
    destruct (check_messages_any_system (get_recent_messages q) st1 st2 Hw Hp)
      as [Hw' Hp'].
    apply IH; assumption.
Qed.

End AnySystem.

(** X20: which messages are processed, in which order, and the watermark
    that results do not depend on what happens at the clipboard: two runs
    over the same answers of the store, with clipboards that fail at
    different times, process the same messages and end at the same
    watermark. *)
Theorem clipboard_does_not_steer {py : Interp} (os1 os2 : System)
  (polls : list query_result) (st : monitor) :
  last_message_id (polling (os := os1) polls st)
  = last_message_id (polling (os := os2) polls st)
  /\ processed_ids (output (polling (os := os1) polls st))
     = processed_ids (output (polling (os := os2) polls st)).
Proof. apply polling_any_system; reflexivity. Qed.

Section CountFacts.
Context {py : Interp} {os : System}.

Lemma check_messages_counts (ms : list message) (st : monitor) :
  length (emitted_codes (output st)) <= length (processed_ids (output st)) ->
  length (emitted_codes (output (check_messages ms st)))
  <= length (processed_ids (output (check_messages ms st))).
Proof.
  revert st; induction ms as [|m ms IH]; intros st H; simpl; [exact H|].
  apply IH. unfold check_message.
  destruct (last_message_id st <? message_id m)%Z; [|exact H].
  rewrite process_message_eq.
  destruct (extract_code (message_text m)) as [code|];
    [destruct (is_new code (processed_codes (set_last_message_id (message_id m) st)));
     [destruct (pbcopy (output (set_last_message_id (message_id m) st)
                        ++ [Processing (message_id m)]) code)|]|];
    cbn; rewrite ?emitted_codes_app, ?processed_ids_app; simpl;
    rewrite ?length_app; simpl; lia.
Qed.

End CountFacts.

(** X21: along the polls of the monitor, from its initial state, no more
    codes are copied to the clipboard than messages are processed: a message
    gives at most one code. *)
Theorem one_code_per_message {py : Interp} {os : System}
  (polls : list query_result) :
  length (emitted_codes (output (polling polls init)))
  <= length (processed_ids (output (polling polls init))).
Proof.
  assert (H : forall st,
             length (emitted_codes (output st))
             <= length (processed_ids (output st)) ->
             length (emitted_codes (output (polling polls st)))
             <= length (processed_ids (output (polling polls st)))).
  { induction polls as [|q polls IH]; intros st Hst; simpl; [exact Hst|].
    apply IH. rewrite check_for_new_messages_eq.
    apply check_messages_counts. exact Hst. }
  apply H. simpl. lia.
Qed.

(** ** The notification script *)

Lemma class_not_quote {py : Interp} (T : AsciiTables py) (cs : charset) (c : N) :
  in_charset cs c = true -> c <> 34%N /\ c <> 92%N.
Proof.
  destruct cs; simpl; intros H.
  - split; intros ->; rewrite isdecimal_ascii in H by reflexivity;
      discriminate.
  - split; intros ->; discriminate.
Qed.

(** X19: for an interpreter whose tables agree with ASCII below 128, the
    script built to announce a detected code holds the six double quotes the
    template writes and no backslash: no character of a code can close a
    string of the script or escape in it. *)
Theorem detection_script_quotes {py : Interp} (T : AsciiTables py)
  (text code : str) :
  extract_code text = Some code ->
  let script := notification_script detected_title
                  (lit "Code copied to clipboard: " ++ code) true in
  count_occ N.eq_dec script 34%N = 6
  /\ count_occ N.eq_dec script 92%N = 0.
Proof.
  intros E script. subst script.
  destruct (@extract_code_run _ _ _ E) as (cs & n & i & _ & (_ & _ & Hf & _)).
  rewrite forallb_forall in Hf.
  assert (H34 : count_occ N.eq_dec code 34%N = 0).
  { apply count_occ_not_In. intros Hin.
    exact (proj1 (class_not_quote T cs _ (Hf _ Hin)) eq_refl). }
  assert (H92 : count_occ N.eq_dec code 92%N = 0).
  { apply count_occ_not_In. intros Hin.
    exact (proj2 (class_not_quote T cs _ (Hf _ Hin)) eq_refl). }
  unfold notification_script. rewrite !count_occ_app, H34, H92.
  split; vm_compute; reflexivity.
Qed.

Lemma detection_script_quotes_witness :
  count_occ N.eq_dec
    (notification_script detected_title
       (lit "Code copied to clipboard: " ++ lit "482913") true) 34%N = 6
  /\ count_occ N.eq_dec
       (notification_script detected_title
          (lit "Code copied to clipboard: " ++ lit "482913") true) 92%N = 0.
Proof.
  apply (@detection_script_quotes ascii_interp
           ascii_interp_tables
           (lit "Your code is 482913, expires in 10 min") (lit "482913")).
  vm_compute. reflexivity.
Defined.
